(** * KHL statistics mini-app: the parser module (src/parser.py)

    A shallow embedding of [src/parser.py]: season resolution, the table
    parser over the BeautifulSoup tree, the [lru_cache]d [get_players],
    prefix search and exact lookup, followed by the properties of the
    specification that concern them; then the two JSON handlers of
    [src/app.py] over the same process state, with invariants of the cache
    and properties of what the parser and the handlers return.

    Modelling conventions.
    - A Python [str] is the list of its Unicode code points ([pystr]).
    - The parts of the Unicode character database that [str.strip],
      [str.isdigit], [str.lower], [int] and the regular expression class
      [\d] consult are the fields of the class [UnicodeData]; the laws of
      the class are facts that hold of CPython's tables.  [ucd_sample] is an
      instance that agrees with CPython on Basic Latin, Latin-1 and the
      basic Cyrillic block.
    - [int] is CPython's conversion, with the interpreter's limit on the
      number of digits of a literal ([Interpreter]): 4300 unless configured,
      none when the setting is 0, as in the interpreters that precede it.
    - [lru_cache] keys a call by its arguments as they are written
      ([call]): positional, by keyword or left to the default.
    - Exceptions are an explicit result type; the cache and the network are
      explicit state. *)

From Stdlib Require Import List NArith ZArith Bool Lia Arith.
From Stdlib Require Import Strings.Ascii Strings.String.
From Stdlib Require DecimalPos.
Import ListNotations.

Set Warnings "-register-all".

(** ** Python strings *)

Definition pystr := list N.

(** An ASCII literal as a [pystr]. *)
Definition lit (s : string) : pystr := map N_of_ascii (list_ascii_of_string s).

Fixpoint str_eqb (a b : pystr) : bool :=
  match a, b with
  | [], [] => true
  | x :: a', y :: b' => N.eqb x y && str_eqb a' b'
  | _, _ => false
  end.

(** [a.startswith(b)] *)
Fixpoint startswith (a b : pystr) : bool :=
  match b, a with
  | [], _ => true
  | y :: b', x :: a' => N.eqb x y && startswith a' b'
  | _ :: _, [] => false
  end.

(** [sep in s] for a one-character [sep]. *)
Definition contains_char (sep : N) (s : pystr) : bool := existsb (N.eqb sep) s.

(** [s.split(sep)] for a one-character [sep]. *)
Fixpoint split (sep : N) (s : pystr) : list pystr :=
  match s with
  | [] => [[]]
  | c :: r =>
      if N.eqb c sep then [] :: split sep r
      else match split sep r with
           | h :: t => (c :: h) :: t
           | [] => [[c]]
           end
  end.

(** [s.lstrip()], [s.rstrip()], [s.strip()] for a given whitespace class. *)
Fixpoint lstrip_with (sp : N -> bool) (s : pystr) : pystr :=
  match s with
  | [] => []
  | c :: r => if sp c then lstrip_with sp r else s
  end.

Definition rstrip_with (sp : N -> bool) (s : pystr) : pystr :=
  rev (lstrip_with sp (rev s)).

Definition strip_with (sp : N -> bool) (s : pystr) : pystr :=
  rstrip_with sp (lstrip_with sp s).

Definition slash : N := 47.
Definition minus_sign : N := 45.
Definition plus_sign : N := 43.
Definition underscore : N := 95.
Definition newline : N := 10.

(** The whitespace of the Basic Latin block, as [str.isspace] has it. *)
Definition ascii_space (c : N) : bool :=
  ((9 <=? c) && (c <=? 13) || (28 <=? c) && (c <=? 32))%N.

Definition ascii_digit (c : N) : option N :=
  if ((48 <=? c) && (c <=? 57))%N then Some (c - 48)%N else None.

(** ** The Unicode character database, as far as the module consults it *)

Class UnicodeData := {
  (** [str.isspace] on one character *)
  isspace_cp : N -> bool;
  (** [unicodedata.decimal]: the value of a decimal digit (category Nd) *)
  decimal_value : N -> option N;
  (** [unicodedata.digit]: the value of a character of numeric type Digit
      or Decimal; [str.isdigit] tests that it exists *)
  digit_value : N -> option N;
  (** [str.lower] *)
  lower : pystr -> pystr;

  decimal_is_digit : forall c d, decimal_value c = Some d -> digit_value c = Some d;
  ascii_isspace : forall c, (c < 128)%N -> isspace_cp c = ascii_space c;
  ascii_decimal : forall c, (c < 128)%N -> decimal_value c = ascii_digit c;
  ascii_digit_value : forall c, (c < 128)%N -> digit_value c = ascii_digit c;
  digit_not_space : forall c d, digit_value c = Some d -> isspace_cp c = false;
  lower_nil : lower [] = [];
  lower_nil_inv : forall s, lower s = [] -> s = [];
  lower_strip : forall s,
      lower (strip_with isspace_cp s) = strip_with isspace_cp (lower s)
}.

(** ** The interpreter's setting that [int] consults *)

Class Interpreter := {
  (** [sys.get_int_max_str_digits()]: the most digits [int] converts, 0 for
      no limit *)
  int_max_str_digits : nat
}.

Section Str.
Context {U : UnicodeData} {I : Interpreter}.

Definition strip (s : pystr) : pystr := strip_with isspace_cp s.

Definition is_decimal (c : N) : bool :=
  match decimal_value c with Some _ => true | None => false end.

Definition is_digit (c : N) : bool :=
  match digit_value c with Some _ => true | None => false end.

(** [s.isdigit()]: at least one character, and every character a digit. *)
Definition isdigit (s : pystr) : bool :=
  match s with
  | [] => false
  | _ => forallb is_digit s
  end.

(** *** [int(s)]

    CPython maps every character below 127 to itself, every other
    whitespace character to a space and every other decimal digit to its
    ASCII digit, and then reads: C whitespace, an optional sign, decimal
    digits with single underscores between them, C whitespace. *)

Definition int_space (c : N) : bool :=
  if (c <? 127)%N then ((9 <=? c) && (c <=? 13) || (c =? 32))%N
  else isspace_cp c.

(** The digits of an integer literal; [prev] tells that the previous
    character was a digit, which an underscore and the end both require. *)
Fixpoint int_digits (s : pystr) (acc : N) (prev : bool) : option N :=
  match s with
  | [] => if prev then Some acc else None
  | c :: r =>
      match decimal_value c with
      | Some d => int_digits r (10 * acc + d)%N true
      | None =>
          if N.eqb c underscore && prev then int_digits r acc false else None
      end
  end.

(** The value of an integer literal. *)
Definition int_literal (s : pystr) : option Z :=
  match strip_with int_space s with
  | c :: r =>
      if N.eqb c minus_sign then
        option_map (fun n => Z.opp (Z.of_N n)) (int_digits r 0%N false)
      else if N.eqb c plus_sign then option_map Z.of_N (int_digits r 0%N false)
      else option_map Z.of_N (int_digits (c :: r) 0%N false)
  | [] => None
  end.

(** The digits of a literal are its characters other than the whitespace,
    the sign and the underscores.  A literal of more than 640 digits is
    refused when the limit is set and the digits exceed it. *)
Definition count_digits (s : pystr) : nat := List.length (filter is_decimal s).

Definition over_digit_limit (s : pystr) : bool :=
  (640 <? count_digits s) && (0 <? int_max_str_digits)
  && (int_max_str_digits <? count_digits s).

(** [int(s)]: [None] when it raises [ValueError]. *)
Definition int (s : pystr) : option Z :=
  match int_literal s with
  | Some z => if over_digit_limit s then None else Some z
  | None => None
  end.

(** *** [re.match(r"^-?\d+$", s)]

    [\d] is a Unicode decimal digit; [$] matches at the end of the string
    and also just before a newline that ends the string. *)

Fixpoint re_digits_end (s : pystr) : bool :=
  match s with
  | [] => true
  | c :: r =>
      if is_decimal c then re_digits_end r
      else N.eqb c newline && match r with [] => true | _ => false end
  end.

Definition re_digits1_end (s : pystr) : bool :=
  match s with
  | c :: r => is_decimal c && re_digits_end r
  | [] => false
  end.

Definition re_match_signed (s : pystr) : bool :=
  match s with
  | c :: r => if N.eqb c minus_sign then re_digits1_end r else re_digits1_end s
  | [] => false
  end.

End Str.

(** ** Exceptions *)

Inductive error_message :=
| InvalidLiteral        (* int: invalid literal for int() with base 10 *)
| DigitLimit            (* int: Exceeds the limit (... digits) for integer string conversion *)
| InvalidSeasonFormat   (* Invalid season format: ... *)
| TableNotFound.        (* Statistics table not found in the provided HTML *)

Inductive exn :=
| ValueError (msg : error_message)
| IndexError
| RequestException.     (* requests.get and Response.raise_for_status *)

Inductive result (A : Type) :=
| Ok (a : A)
| Raise (e : exn).

Arguments Ok {A} a.
Arguments Raise {A} e.

Definition rbind {A B} (r : result A) (k : A -> result B) : result B :=
  match r with
  | Ok a => k a
  | Raise e => Raise e
  end.

Declare Scope result_scope.
Delimit Scope result_scope with result.
Notation "x <- r ;; k" := (rbind r (fun x => k))
  (at level 61, r at next level, right associativity) : result_scope.

Definition is_ValueError (e : exn) : bool :=
  match e with ValueError _ => true | _ => false end.

(** [l[i]] *)
Definition item {A} (l : list A) (i : nat) : result A :=
  match nth_error l i with
  | Some a => Ok a
  | None => Raise IndexError
  end.

(** [str(z)] for an integer. *)
Fixpoint uint_str (d : Decimal.uint) : pystr :=
  match d with
  | Decimal.Nil => []
  | Decimal.D0 r => 48%N :: uint_str r
  | Decimal.D1 r => 49%N :: uint_str r
  | Decimal.D2 r => 50%N :: uint_str r
  | Decimal.D3 r => 51%N :: uint_str r
  | Decimal.D4 r => 52%N :: uint_str r
  | Decimal.D5 r => 53%N :: uint_str r
  | Decimal.D6 r => 54%N :: uint_str r
  | Decimal.D7 r => 55%N :: uint_str r
  | Decimal.D8 r => 56%N :: uint_str r
  | Decimal.D9 r => 57%N :: uint_str r
  end.

Definition str_of_int (z : Z) : pystr :=
  match Z.to_int z with
  | Decimal.Pos d => uint_str d
  | Decimal.Neg d => minus_sign :: uint_str d
  end.

(** ** The data model *)

Record PlayerStats := {
  name : pystr;
  team : pystr;
  team_abbr : pystr;
  position : pystr;
  points : Z;
  goals : Z;
  assists : Z;
  games : Z;
  plus_minus : Z;
  penalty : Z
}.

(** ** The BeautifulSoup tree

    [Comment] stands for the strings that [get_text] leaves out. *)

Inductive node :=
| NavigableString (text : pystr)
| Comment (text : pystr)
| Tag (tag_name : pystr) (contents : list node).

(** [n.get_text()]: the strings below [n], joined in document order. *)
Fixpoint get_text (n : node) : pystr :=
  match n with
  | NavigableString t => t
  | Comment _ => []
  | Tag _ cs => flat_map get_text cs
  end.

(** The elements and strings below [n], in document order. *)
Fixpoint descendants (n : node) : list node :=
  match n with
  | Tag _ cs => flat_map (fun c => c :: descendants c) cs
  | _ => []
  end.

Definition tag_in (names : list pystr) (n : node) : bool :=
  match n with
  | Tag nm _ => existsb (str_eqb nm) names
  | _ => false
  end.

(** [n.find_all(names)] *)
Definition find_all (names : list pystr) (n : node) : list node :=
  filter (tag_in names) (descendants n).

Definition is_empty {A} (l : list A) : bool :=
  match l with [] => true | _ => false end.

Section Parser.
Context {U : UnicodeData} {I : Interpreter}.
Local Open Scope result_scope.

(** ** Season resolution and the URL *)

(** [int(s)] with its exception: the text is validated first, so the
    message names the limit only for a literal. *)
Definition py_int (s : pystr) : result Z :=
  match int s with
  | Some z => Ok z
  | None =>
      Raise (ValueError (match int_literal s with
                         | Some _ => DigitLimit
                         | None => InvalidLiteral
                         end))
  end.

Definition _season_to_year (season : pystr) : result Z :=
  if contains_char slash season then
    let parts := split slash season in
    match (p <- item parts 1 ;; py_int p) with
    | Ok y => Ok y
    | Raise IndexError | Raise (ValueError _) =>
        Raise (ValueError InvalidSeasonFormat)
    | Raise e => Raise e
    end
  else py_int season.

Definition _build_url (season : pystr) (playoff : bool) : result pystr :=
  year <- _season_to_year season ;;
  let code := if playoff then 315%Z else 312%Z in
  Ok (lit "https://allhockey.ru/stat/khl/" ++ str_of_int year ++ lit "/"
        ++ str_of_int code ++ lit "/player").

(** ** The table parser *)

(** The column label of the player name, 'Игрок'. *)
Definition player_label : pystr := [1048; 1075; 1088; 1086; 1082]%N.

(** [[c.get_text().strip() for c in n.find_all(["th", "td"])]] *)
Definition cell_texts (n : node) : list pystr :=
  map (fun c => strip (get_text c)) (find_all [lit "th"; lit "td"] n).

(** [cells and "Игрок" in cells] *)
Definition is_stats_table (candidate : node) : bool :=
  let cells := cell_texts candidate in
  negb (is_empty cells) && existsb (str_eqb player_label) cells.

(** [int(c) if c.isdigit() else 0] *)
Definition count_field (c : pystr) : result Z :=
  if isdigit c then py_int c else Ok 0%Z.

(** [int(c) if re.match(r"^-?\d+$", c) else 0] *)
Definition signed_field (c : pystr) : result Z :=
  if re_match_signed c then py_int c else Ok 0%Z.

(** The body of the [try] block of one row. *)
Definition row_to_stats (cols : list pystr) : result PlayerStats :=
  name <- item cols 1 ;;
  team <- item cols 2 ;;
  team_abbr <- item cols 3 ;;
  position <- item cols 4 ;;
  points <- (c <- item cols 5 ;; count_field c) ;;
  goals <- (c <- item cols 6 ;; count_field c) ;;
  assists <- (c <- item cols 7 ;; count_field c) ;;
  games <- (c <- item cols 8 ;; count_field c) ;;
  plus_minus <- (c <- item cols 9 ;; signed_field c) ;;
  penalty <- (c <- item cols 10 ;; count_field c) ;;
  Ok {| name := name; team := team; team_abbr := team_abbr;
        position := position; points := points; goals := goals;
        assists := assists; games := games; plus_minus := plus_minus;
        penalty := penalty |}.

(** The loop over the rows; [players] is the list appended to. *)
Fixpoint parse_rows (rows : list node) (players : list PlayerStats)
  : list PlayerStats :=
  match rows with
  | [] => players
  | tr :: rest =>
      let cols := cell_texts tr in
      if is_empty cols || (List.length cols <? 12) then parse_rows rest players
      else match row_to_stats cols with
           | Ok p => parse_rows rest (players ++ [p])
           | Raise _ => parse_rows rest players
           end
  end.

(** [parse_html] on the tree that [BeautifulSoup(html, "html.parser")]
    returns. *)
Definition parse_soup (soup : node) : result (list PlayerStats) :=
  match find is_stats_table (find_all [lit "table"] soup) with
  | None => Raise (ValueError TableNotFound)
  | Some table => Ok (parse_rows (tl (find_all [lit "tr"] table)) [])
  end.

(** ** Search and lookup over a player list *)

(** The loop of [search_players]: the matches, and the part of the
    iterable that was not consumed. *)
Fixpoint search_scan (q : pystr) (limit : Z) (players matches : list PlayerStats)
  : list PlayerStats * list PlayerStats :=
  match players with
  | [] => (matches, [])
  | p :: rest =>
      if startswith (lower (name p)) q then
        let matches' := matches ++ [p] in
        if (limit <=? Z.of_nat (List.length matches'))%Z then (matches', rest)
        else search_scan q limit rest matches'
      else search_scan q limit rest matches
  end.

Definition search_players (query : pystr) (players : list PlayerStats) (limit : Z)
  : list PlayerStats :=
  let q := lower (strip query) in
  if is_empty q then [] else fst (search_scan q limit players []).

(** The loop of [get_player_stats]. *)
Definition find_player (name_ : pystr) (players : list PlayerStats)
  : option PlayerStats :=
  let target := strip (lower name_) in
  find (fun p => str_eqb (lower (name p)) target) players.

End Parser.

(** ** The outside world and the process state *)

Class World := {
  (** [BeautifulSoup(html, "html.parser")] *)
  BeautifulSoup : pystr -> node;
  (** [requests.get(url, ...)], [raise_for_status()] and [.text]: the
      outcome of the [n]-th request the process makes, for its URL *)
  http_get : nat -> pystr -> result pystr
}.

(** The arguments of a call of [get_players], as they are written.  The
    key that [lru_cache] builds from them keeps the way they were passed:
    the season alone, the tuple of the positional arguments, or the
    positional arguments followed by the keyword arguments in their order;
    the keys of two of these forms are never equal.  The flag is a [bool],
    as the function's annotation has it. *)
Inductive call :=
| Args1 (season : pystr)                    (* get_players(season) *)
| Args2 (season : pystr) (playoff : bool)   (* get_players(season, playoff) *)
| ArgsKw (season : pystr) (playoff : bool)  (* get_players(season, playoff=playoff) *)
| KwSeason (season : pystr)                 (* get_players(season=season) *)
| KwBoth (season : pystr) (playoff : bool)  (* get_players(season=season, playoff=playoff) *)
| KwRev (season : pystr) (playoff : bool).  (* get_players(playoff=playoff, season=season) *)

(** The parameters the function body receives: [playoff] defaults to
    [False]. *)
Definition call_season (c : call) : pystr :=
  match c with
  | Args1 s | Args2 s _ | ArgsKw s _ | KwSeason s | KwBoth s _ | KwRev s _ => s
  end.

Definition call_playoff (c : call) : bool :=
  match c with
  | Args1 _ | KwSeason _ => false
  | Args2 _ b | ArgsKw _ b | KwBoth _ b | KwRev _ b => b
  end.

Definition cache_key := call.

Definition key_eqb (a b : cache_key) : bool :=
  match a, b with
  | Args1 s, Args1 t | KwSeason s, KwSeason t => str_eqb s t
  | Args2 s x, Args2 t y | ArgsKw s x, ArgsKw t y
  | KwBoth s x, KwBoth t y | KwRev s x, KwRev t y =>
      str_eqb s t && Bool.eqb x y
  | _, _ => false
  end.

(** The cache of [get_players], most recently used entry first, and the
    URLs requested so far, latest first. *)
Record process := {
  cache : list (cache_key * list PlayerStats);
  requests : list pystr
}.

Definition M (A : Type) : Type := process -> result A * process.

Definition maxsize : nat := 10.

Definition cache_get (k : cache_key) (entries : list (cache_key * list PlayerStats))
  : option (cache_key * list PlayerStats) :=
  find (fun e => key_eqb k (fst e)) entries.

Definition cache_remove (k : cache_key) (entries : list (cache_key * list PlayerStats))
  : list (cache_key * list PlayerStats) :=
  filter (fun e => negb (key_eqb k (fst e))) entries.

(** Storing the result of a miss: nothing when the key is there by now,
    else the oldest entry makes room when the cache is full. *)
Definition cache_store (k : cache_key) (v : list PlayerStats)
    (entries : list (cache_key * list PlayerStats))
  : list (cache_key * list PlayerStats) :=
  match cache_get k entries with
  | Some _ => entries
  | None =>
      (k, v) :: (if maxsize <=? List.length entries then removelast entries
                 else entries)
  end.

(** [functools.lru_cache(maxsize=10)] around [f]: a hit moves the entry to
    the front and returns it; a miss calls [f], and stores only a result
    that was returned, never an exception. *)
Definition lru_cache (f : cache_key -> M (list PlayerStats)) (k : cache_key)
  : M (list PlayerStats) :=
  fun st =>
    match cache_get k (cache st) with
    | Some e =>
        (Ok (snd e),
         {| cache := e :: cache_remove k (cache st); requests := requests st |})
    | None =>
        match f k st with
        | (Ok v, st') =>
            (Ok v, {| cache := cache_store k v (cache st');
                      requests := requests st' |})
        | (Raise e, st') => (Raise e, st')
        end
    end.

Section Service.
Context {U : UnicodeData} {I : Interpreter} {W : World}.

Definition parse_html (html : pystr) : result (list PlayerStats) :=
  parse_soup (BeautifulSoup html).

Definition fetch_html (season : pystr) (playoff : bool) : M pystr :=
  fun st =>
    match _build_url season playoff with
    | Raise e => (Raise e, st)
    | Ok url =>
        (http_get (List.length (requests st)) url,
         {| cache := cache st; requests := url :: requests st |})
    end.

(** The function that [lru_cache] wraps, on the parameters of the call. *)
Definition get_players_uncached (k : cache_key) : M (list PlayerStats) :=
  fun st =>
    match fetch_html (call_season k) (call_playoff k) st with
    | (Ok html, st') => (parse_html html, st')
    | (Raise e, st') => (Raise e, st')
    end.

(** [get_players], called with the arguments [c]. *)
Definition get_players (c : call) : M (list PlayerStats) :=
  lru_cache get_players_uncached c.

(** [get_player_stats]; it calls [get_players(season, playoff)]. *)
Definition get_player_stats (name_ season : pystr) (playoff : bool)
  : M (option PlayerStats) :=
  fun st =>
    match get_players (Args2 season playoff) st with
    | (Ok players, st') => (Ok (find_player name_ players), st')
    | (Raise e, st') => (Raise e, st')
    end.

(** The state after a sequence of calls of [get_players]. *)
Fixpoint run_calls (calls : list call) (st : process) : process :=
  match calls with
  | [] => st
  | c :: rest => run_calls rest (snd (get_players c st))
  end.

(** [k] stays in the cache throughout the calls. *)
Fixpoint stays_cached (k : cache_key) (calls : list call) (st : process)
  : Prop :=
  cache_get k (cache st) <> None /\
  match calls with
  | [] => True
  | c :: rest => stays_cached k rest (snd (get_players c st))
  end.

End Service.

(** ** The web handlers (src/app.py)

    A request is the values of its query parameters, [None] for a
    parameter that is absent; the environment is the [DEFAULT_SEASON]
    variable and the date of [date.today()].  A response is the object
    given to [jsonify] and the status code. *)

Inductive json_value :=
| JStr (s : pystr)
| JInt (z : Z).

(** [PlayerStats.to_dict] *)
Definition to_dict (p : PlayerStats) : list (pystr * json_value) :=
  [(lit "name", JStr (name p));
   (lit "team", JStr (team p));
   (lit "team_abbr", JStr (team_abbr p));
   (lit "position", JStr (position p));
   (lit "points", JInt (points p));
   (lit "goals", JInt (goals p));
   (lit "assists", JInt (assists p));
   (lit "games", JInt (games p));
   (lit "plus_minus", JInt (plus_minus p));
   (lit "penalty", JInt (penalty p))].

Inductive body :=
| PlayersBody (players : list (list (pystr * json_value)))  (* {'players': [...]} *)
| StatsBody (stats : list (pystr * json_value))             (* {'stats': {...}} *)
| ErrorBody (message : pystr).                              (* {'error': ...} *)

Definition response := (body * Z)%type.

Record environment := {
  DEFAULT_SEASON : option pystr;
  today_year : Z;
  today_month : Z
}.

(** [request.args.get(key, default)] and [os.environ.get(key, default)] *)
Definition get_or (v : option pystr) (default : pystr) : pystr :=
  match v with
  | Some s => s
  | None => default
  end.

(** [request.args.get(key) or other] *)
Definition get_or_else (v : option pystr) (other : pystr) : pystr :=
  match v with
  | Some s => if is_empty s then other else s
  | None => other
  end.

(** The season of the current date: it ends next year from July on. *)
Definition default_season (current_year month : Z) : pystr :=
  let end_year := if (7 <=? month)%Z then (current_year + 1)%Z else current_year in
  let start_year := (end_year - 1)%Z in
  str_of_int start_year ++ lit "/" ++ str_of_int end_year.

Section Handlers.
Context {U : UnicodeData} {I : Interpreter} {W : World}.

(** [request.args.get('playoff', 'false').lower() in ('1', 'true', 'yes')] *)
Definition playoff_flag (param : option pystr) : bool :=
  let playoff_param := lower (get_or param (lit "false")) in
  existsb (str_eqb playoff_param) [lit "1"; lit "true"; lit "yes"].

Definition api_search (q season_arg playoff_arg : option pystr) (env : environment)
  : process -> response * process :=
  fun st =>
    let query := get_or q [] in
    let season := get_or_else season_arg (get_or (DEFAULT_SEASON env) []) in
    let playoff := playoff_flag playoff_arg in
    if is_empty query then ((PlayersBody [], 200%Z), st)
    else
      let season :=
        if is_empty season then default_season (today_year env) (today_month env)
        else season in
      match get_players (Args2 season playoff) st with
      | (Raise _, st') =>
          ((ErrorBody (lit "Failed to load player list"), 500%Z), st')
      | (Ok players, st') =>
          ((PlayersBody (map to_dict (search_players query players 10)), 200%Z),
           st')
      end.

Definition api_stats (player_arg season_arg playoff_arg : option pystr)
  : process -> response * process :=
  fun st =>
    let name_ := strip (get_or player_arg []) in
    let season := strip (get_or season_arg []) in
    let playoff := playoff_flag playoff_arg in
    if is_empty name_ || is_empty season then
      ((ErrorBody (lit "Missing player or season parameter"), 400%Z), st)
    else
      match get_player_stats name_ season playoff st with
      | (Raise _, st') =>
          ((ErrorBody (lit "Failed to fetch player stats"), 500%Z), st')
      | (Ok None, st') => ((ErrorBody (lit "Player not found"), 404%Z), st')
      | (Ok (Some stats), st') => ((StatsBody (to_dict stats), 200%Z), st')
      end.

(** The operations on the process: the two functions of the parser module
    that use the cache, and the two handlers. *)
Inductive operation :=
| GetPlayers (c : call)
| GetPlayerStats (name_ season : pystr) (playoff : bool)
| ApiSearch (q season_arg playoff_arg : option pystr) (env : environment)
| ApiStats (player_arg season_arg playoff_arg : option pystr).

Definition step (op : operation) (st : process) : process :=
  match op with
  | GetPlayers c => snd (get_players c st)
  | GetPlayerStats name_ season playoff =>
      snd (get_player_stats name_ season playoff st)
  | ApiSearch q season_arg playoff_arg env =>
      snd (api_search q season_arg playoff_arg env st)
  | ApiStats player_arg season_arg playoff_arg =>
      snd (api_stats player_arg season_arg playoff_arg st)
  end.

Fixpoint run (ops : list operation) (st : process) : process :=
  match ops with
  | [] => st
  | op :: rest => run rest (step op st)
  end.

End Handlers.

(** The position of the entry of [k] in the cache, counted from the most
    recently used one. *)
Fixpoint cache_position (k : cache_key)
    (entries : list (cache_key * list PlayerStats)) : option nat :=
  match entries with
  | [] => None
  | e :: rest =>
      if key_eqb k (fst e) then Some 0
      else option_map S (cache_position k rest)
  end.

(** ** The wording of the specification, for comparison with the code *)

Section SpecWords.
Context {U : UnicodeData} {I : Interpreter}.

Definition decimal_digit (c : N) : Z :=
  match decimal_value c with
  | Some d => Z.of_N d
  | None => 0%Z
  end.

(** The value of a text "composed entirely of decimal digits". *)
Definition spec_decimal (s : pystr) : option Z :=
  match s with
  | [] => None
  | _ =>
      if forallb is_decimal s
      then Some (fold_left (fun acc c => (10 * acc + decimal_digit c)%Z) s 0%Z)
      else None
  end.

(** The value of a text that is "an optional leading minus sign followed
    by one or more digits". *)
Definition spec_signed_decimal (s : pystr) : option Z :=
  match s with
  | c :: r =>
      if N.eqb c minus_sign then option_map Z.opp (spec_decimal r)
      else spec_decimal s
  | [] => None
  end.

Definition or_zero (o : option Z) : Z :=
  match o with
  | Some v => v
  | None => 0%Z
  end.

(** The record of a row by fixed column position, with the defaults of the
    numeric fields. *)
Definition spec_record (cols : list pystr) : PlayerStats :=
  {| name := nth 1 cols [];
     team := nth 2 cols [];
     team_abbr := nth 3 cols [];
     position := nth 4 cols [];
     points := or_zero (spec_decimal (nth 5 cols []));
     goals := or_zero (spec_decimal (nth 6 cols []));
     assists := or_zero (spec_decimal (nth 7 cols []));
     games := or_zero (spec_decimal (nth 8 cols []));
     plus_minus := or_zero (spec_signed_decimal (nth 9 cols []));
     penalty := or_zero (spec_decimal (nth 10 cols [])) |}.

(** A count cell on which [isdigit] and [int] agree: either [isdigit]
    rejects it, or every character is a decimal digit and the digits are
    within the interpreter's limit. *)
Definition count_cell_converts (c : pystr) : bool :=
  negb (isdigit c) || (forallb is_decimal c && negb (over_digit_limit c)).

(** A plus/minus cell that [int] is not given, or is given within the
    limit. *)
Definition signed_cell_converts (c : pystr) : bool :=
  negb (re_match_signed c && over_digit_limit c).

Definition row_converts (cols : list pystr) : bool :=
  forallb (fun i => count_cell_converts (nth i cols [])) [5; 6; 7; 8; 10]
  && signed_cell_converts (nth 9 cols []).

(** A row with the twelve cells the table has at least. *)
Definition has_12_cells (tr : node) : bool := 12 <=? List.length (cell_texts tr).

(** The player's name, lower-cased, starts with [q]. *)
Definition name_starts_with (q : pystr) (p : PlayerStats) : bool :=
  startswith (lower (name p)) q.

(** Two names equal up to letter case. *)
Definition same_name_ci (a b : pystr) : bool := str_eqb (lower a) (lower b).

End SpecWords.

(** ** Auxiliary notions of the proofs *)

(** What one row adds to the list of players. *)
Definition row_output {U : UnicodeData} {I : Interpreter} (tr : node) : list PlayerStats :=
  if has_12_cells tr then
    match row_to_stats (cell_texts tr) with
    | Ok p => [p]
    | Raise _ => []
    end
  else [].

(** Every entry under [k] holds [v]. *)
Definition holds (k : cache_key) (v : list PlayerStats)
    (entries : list (cache_key * list PlayerStats)) : Prop :=
  forall e, In e entries -> fst e = k -> snd e = v.

(** ** Sample pages and a sample world, for the concrete cases *)

Definition td (s : pystr) : node := Tag (lit "td") [NavigableString s].
Definition th (s : pystr) : node := Tag (lit "th") [NavigableString s].
Definition tr_of (cells : list node) : node := Tag (lit "tr") cells.

Definition header_row : node :=
  tr_of [th (lit "No"); th player_label; th (lit "Team"); th (lit "Abbr");
         th (lit "Pos"); th (lit "P"); th (lit "G"); th (lit "A");
         th (lit "GP"); th (lit "+/-"); th (lit "PIM"); th (lit "S")].

(** A data row: rank, name, points, goals, assists, games, +/-, penalty. *)
Definition data_row (rank nm pts g a gp pm pim : pystr) : node :=
  tr_of [td rank; td nm; td (lit "Dynamo"); td (lit "DYN"); td (lit "F");
         td pts; td g; td a; td gp; td pm; td pim; td (lit "100")].

Definition superscript_two : pystr := [178%N].

Definition row_petrov : node :=
  data_row (lit "1") (lit " Petrov ") (lit "60") (lit "25") (lit "35")
           (lit "50") (lit "-7") (lit "12").
Definition row_ivanov : node :=
  data_row (lit "2") (lit "Ivanov") (lit "41") (lit "20") (lit "21")
           (lit "48") (lit "+3") (lit "-").
Definition row_sidorov : node :=
  data_row (lit "3") (lit "Sidorov") (lit "30") (lit "10") (lit "20")
           (lit "47") (lit "5") (lit "8").
Definition row_short : node :=
  tr_of [td (lit "4"); td (lit "Orlov"); td (lit "x"); td (lit "y"); td (lit "z")].
Definition row_superscript : node :=
  data_row (lit "5") (lit "Belov") superscript_two (lit "1") (lit "1")
           (lit "9") (lit "0") (lit "2").

(** A points cell of 4301 digits [1]. *)
Definition long_count : pystr := repeat 49%N 4301.
Definition row_long_count : node :=
  data_row (lit "6") (lit "Orlov") long_count (lit "1") (lit "1")
           (lit "9") (lit "0") (lit "2").

Definition page_of (rows : list node) : node :=
  Tag (lit "[document]")
    [Tag (lit "html")
       [Tag (lit "body")
          [Tag (lit "table") [tr_of [td (lit "menu")]];
           Tag (lit "table") (header_row :: rows)]]].

Definition petrov : PlayerStats :=
  {| name := lit "Petrov"; team := lit "Dynamo"; team_abbr := lit "DYN";
     position := lit "F"; points := 60; goals := 25; assists := 35;
     games := 50; plus_minus := -7; penalty := 12 |}.
Definition ivanov : PlayerStats :=
  {| name := lit "Ivanov"; team := lit "Dynamo"; team_abbr := lit "DYN";
     position := lit "F"; points := 41; goals := 20; assists := 21;
     games := 48; plus_minus := 0; penalty := 0 |}.
Definition sidorov : PlayerStats :=
  {| name := lit "Sidorov"; team := lit "Dynamo"; team_abbr := lit "DYN";
     position := lit "F"; points := 30; goals := 10; assists := 20;
     games := 47; plus_minus := 5; penalty := 8 |}.

Definition url_2025_regular : pystr :=
  lit "https://allhockey.ru/stat/khl/2025/312/player".

(** A world whose first request fails and whose later requests of the 2025
    regular-season page succeed; the tree builder knows that one page. *)
#[export] Instance sample_world : World := {|
  BeautifulSoup html :=
    if str_eqb html (lit "<stats 2025>")
    then page_of [row_petrov; row_ivanov; row_sidorov]
    else Tag (lit "[document]") [NavigableString html];
  http_get n url :=
    match n with
    | O => Raise RequestException
    | S _ => if str_eqb url url_2025_regular then Ok (lit "<stats 2025>")
             else Raise RequestException
    end
|}.

Definition fresh_process : process := {| cache := []; requests := [] |}.

(** ** The sample character database

    Exact on Basic Latin, Latin-1 and the basic Cyrillic block: the
    whitespace of [str.isspace], the ASCII digits as the only decimal
    digits, the superscripts one, two and three as digits without a decimal
    value, and the lower-case mapping of the letters of these blocks. *)

Definition sample_isspace (c : N) : bool :=
  (ascii_space c || (c =? 133) || (c =? 160) || (c =? 5760)
   || (8192 <=? c) && (c <=? 8202) || (c =? 8232) || (c =? 8233)
   || (c =? 8239) || (c =? 8287) || (c =? 12288))%N.

Definition sample_decimal (c : N) : option N :=
  if (c <? 128)%N then ascii_digit c else None.

Definition sample_digit (c : N) : option N :=
  if (c <? 128)%N then ascii_digit c
  else if (c =? 178)%N then Some 2%N
  else if (c =? 179)%N then Some 3%N
  else if (c =? 185)%N then Some 1%N
  else None.

Definition sample_lower_cp (c : N) : N :=
  if ((65 <=? c) && (c <=? 90))%N then (c + 32)%N
  else if ((192 <=? c) && (c <=? 222) && negb (c =? 215))%N then (c + 32)%N
  else if ((1040 <=? c) && (c <=? 1071))%N then (c + 32)%N
  else if ((1024 <=? c) && (c <=? 1039))%N then (c + 80)%N
  else c.

Definition sample_lower (s : pystr) : pystr := map sample_lower_cp s.

(** *** The laws of the sample database *)

Lemma lstrip_with_map (sp : N -> bool) (f : N -> N) (s : pystr) :
  (forall c, sp (f c) = sp c) ->
  lstrip_with sp (map f s) = map f (lstrip_with sp s).
Proof.
  intros Hsp. induction s as [|c r IH]; simpl; [reflexivity|].
  rewrite Hsp. destruct (sp c); [exact IH | reflexivity].
Qed.

Lemma strip_with_map (sp : N -> bool) (f : N -> N) (s : pystr) :
  (forall c, sp (f c) = sp c) ->
  strip_with sp (map f s) = map f (strip_with sp s).
Proof.
  intros Hsp. unfold strip_with, rstrip_with.
  rewrite (lstrip_with_map _ _ _ Hsp), <- map_rev, (lstrip_with_map _ _ _ Hsp).
  now rewrite map_rev.
Qed.

Lemma sample_letter_not_space (c : N) :
  (65 <= c <= 122 \/ 192 <= c <= 254 \/ 1024 <= c <= 1119)%N ->
  sample_isspace c = false.
Proof.
  intros Hc. apply not_true_is_false. intros H.
  unfold sample_isspace, ascii_space in H.
  rewrite ?orb_true_iff, ?andb_true_iff, ?N.leb_le, ?N.eqb_eq in H. lia.
Qed.

Lemma sample_lower_cp_cases (c : N) :
  sample_lower_cp c = c \/
  ((65 <= c <= 90 \/ 192 <= c <= 222 \/ 1040 <= c <= 1071)%N /\
   sample_lower_cp c = (c + 32)%N) \/
  ((1024 <= c <= 1039)%N /\ sample_lower_cp c = (c + 80)%N).
Proof.
  unfold sample_lower_cp.
  destruct ((65 <=? c) && (c <=? 90))%N eqn:E1.
  { rewrite andb_true_iff, !N.leb_le in E1. right; left. lia. }
  destruct ((192 <=? c) && (c <=? 222) && negb (c =? 215))%N eqn:E2.
  { rewrite !andb_true_iff, !N.leb_le in E2. right; left. lia. }
  destruct ((1040 <=? c) && (c <=? 1071))%N eqn:E3.
  { rewrite andb_true_iff, !N.leb_le in E3. right; left. lia. }
  destruct ((1024 <=? c) && (c <=? 1039))%N eqn:E4.
  { rewrite andb_true_iff, !N.leb_le in E4. right; right. lia. }
  now left.
Qed.

Lemma sample_lower_cp_space (c : N) :
  sample_isspace (sample_lower_cp c) = sample_isspace c.
Proof.
  destruct (sample_lower_cp_cases c) as [-> | [[Hr ->] | [Hr ->]]];
    [reflexivity | |];
    rewrite (sample_letter_not_space c) by lia;
    apply sample_letter_not_space; lia.
Qed.

Lemma sample_decimal_is_digit (c d : N) :
  sample_decimal c = Some d -> sample_digit c = Some d.
Proof.
  unfold sample_decimal, sample_digit.
  destruct (c <? 128)%N; [tauto | discriminate].
Qed.

Lemma sample_ascii_isspace (c : N) :
  (c < 128)%N -> sample_isspace c = ascii_space c.
Proof.
  intros Hc. unfold sample_isspace.
  destruct (ascii_space c); [reflexivity|]. simpl.
  apply not_true_is_false. intros H.
  rewrite ?orb_true_iff, ?andb_true_iff, ?N.leb_le, ?N.eqb_eq in H. lia.
Qed.

Lemma sample_ascii_decimal (c : N) :
  (c < 128)%N -> sample_decimal c = ascii_digit c.
Proof.
  intros Hc. unfold sample_decimal.
  now apply N.ltb_lt in Hc as ->.
Qed.

Lemma sample_ascii_digit_value (c : N) :
  (c < 128)%N -> sample_digit c = ascii_digit c.
Proof.
  intros Hc. unfold sample_digit.
  now apply N.ltb_lt in Hc as ->.
Qed.

Lemma sample_digit_not_space (c d : N) :
  sample_digit c = Some d -> sample_isspace c = false.
Proof.
  unfold sample_digit, ascii_digit. intros Hd.
  assert (Hc : (48 <= c <= 57 \/ c = 178 \/ c = 179 \/ c = 185)%N).
  { destruct (c <? 128)%N.
    - destruct ((48 <=? c) && (c <=? 57))%N eqn:E; [|discriminate].
      rewrite andb_true_iff, !N.leb_le in E. lia.
    - destruct (N.eqb_spec c 178); [lia|].
      destruct (N.eqb_spec c 179); [lia|].
      destruct (N.eqb_spec c 185); [lia | discriminate]. }
  apply not_true_is_false. intros H.
  unfold sample_isspace, ascii_space in H.
  rewrite ?orb_true_iff, ?andb_true_iff, ?N.leb_le, ?N.eqb_eq in H. lia.
Qed.

Lemma sample_lower_nil_inv (s : pystr) : sample_lower s = [] -> s = [].
Proof. destruct s; [reflexivity | discriminate]. Qed.

Lemma sample_lower_strip (s : pystr) :
  sample_lower (strip_with sample_isspace s)
  = strip_with sample_isspace (sample_lower s).
Proof.
  unfold sample_lower. symmetry.
  apply strip_with_map, sample_lower_cp_space.
Qed.

#[export] Instance ucd_sample : UnicodeData := {|
  isspace_cp := sample_isspace;
  decimal_value := sample_decimal;
  digit_value := sample_digit;
  lower := sample_lower;
  decimal_is_digit := sample_decimal_is_digit;
  ascii_isspace := sample_ascii_isspace;
  ascii_decimal := sample_ascii_decimal;
  ascii_digit_value := sample_ascii_digit_value;
  digit_not_space := sample_digit_not_space;
  lower_nil := eq_refl;
  lower_nil_inv := sample_lower_nil_inv;
  lower_strip := sample_lower_strip
|}.

(** The interpreter as it starts: a limit of 4300 digits. *)
#[export] Instance cpython_default : Interpreter := {|
  int_max_str_digits := 4300
|}.

(** The sample process after its first call, which fails, and after its
    second, which succeeds. *)
Definition after_failure : process :=
  snd (get_players (U := ucd_sample) (W := sample_world)
         (Args2 (lit "2025") false) fresh_process).

Definition after_success : process :=
  snd (get_players (U := ucd_sample) (W := sample_world)
         (Args2 (lit "2025") false) after_failure).

(** * Properties *)

(** ** Strings *)

Lemma str_eqb_eq (a b : pystr) : str_eqb a b = true <-> a = b.
Proof.
  revert b. induction a as [|x a IH]; intros [|y b]; simpl;
    try (split; [discriminate | congruence]); try tauto.
  rewrite andb_true_iff, N.eqb_eq, IH. split.
  - intros [-> ->]. reflexivity.
  - intros [= -> ->]. auto.
Qed.

Lemma str_eqb_refl (a : pystr) : str_eqb a a = true.
Proof. now apply str_eqb_eq. Qed.

Lemma lstrip_with_head (sp : N -> bool) (s : pystr) (c : N) (r : pystr) :
  lstrip_with sp s = c :: r -> sp c = false.
Proof.
  induction s as [|x s IH]; simpl; [discriminate|].
  destruct (sp x) eqn:E; [exact IH|]. intros [= <- <-]. exact E.
Qed.

Lemma lstrip_with_fixed (sp : N -> bool) (s : pystr) :
  (forall c r, s = c :: r -> sp c = false) -> lstrip_with sp s = s.
Proof.
  destruct s as [|c r]; [reflexivity|]. intros H. simpl.
  now rewrite (H c r eq_refl).
Qed.

Lemma rstrip_with_last (sp : N -> bool) (s r : pystr) (c : N) :
  rstrip_with sp s = r ++ [c] -> sp c = false.
Proof.
  unfold rstrip_with. intros H.
  apply (f_equal (@rev N)) in H.
  rewrite rev_involutive, rev_app_distr in H. simpl in H.
  exact (lstrip_with_head _ _ _ _ H).
Qed.

Lemma strip_with_fixed (sp : N -> bool) (s : pystr) :
  (forall c, In c s -> sp c = false) -> strip_with sp s = s.
Proof.
  intros H. unfold strip_with, rstrip_with.
  rewrite (lstrip_with_fixed sp s).
  - rewrite lstrip_with_fixed; [apply rev_involutive|].
    intros c r E. apply H, in_rev. rewrite E. now left.
  - intros c r ->. apply H. now left.
Qed.

Lemma strip_with_ext (sp sp' : N -> bool) (s : pystr) :
  (forall c, In c s -> sp c = sp' c) -> strip_with sp s = strip_with sp' s.
Proof.
  assert (L : forall t, (forall c, In c t -> sp c = sp' c) ->
                        lstrip_with sp t = lstrip_with sp' t
                        /\ (forall c, In c (lstrip_with sp t) -> In c t)).
  { induction t as [|x t IH]; intros Ht; simpl; [tauto|].
    rewrite <- (Ht x (or_introl eq_refl)).
    destruct (sp x); [|tauto].
    destruct IH as [IH1 IH2]; [intros; apply Ht; now right|].
    split; [exact IH1 | intros c Hc; right; now apply IH2]. }
  intros H. unfold strip_with, rstrip_with.
  destruct (L s H) as [E Hin]. rewrite <- E. f_equal.
  apply L. intros c Hc. apply H, Hin, in_rev. exact Hc.
Qed.

Lemma split_no_sep (sep : N) (s : pystr) :
  contains_char sep s = false -> split sep s = [s].
Proof.
  unfold contains_char. induction s as [|c r IH]; simpl; [reflexivity|].
  rewrite orb_false_iff, N.eqb_sym. intros [-> Hr]. now rewrite IH.
Qed.

Lemma split_app_sep (sep : N) (a b : pystr) :
  contains_char sep a = false -> split sep (a ++ sep :: b) = a :: split sep b.
Proof.
  unfold contains_char. induction a as [|c r IH]; simpl.
  - now rewrite N.eqb_refl.
  - rewrite orb_false_iff, N.eqb_sym. intros [-> Hr]. now rewrite IH.
Qed.

Lemma contains_char_app_sep (sep : N) (a b : pystr) :
  contains_char sep (a ++ sep :: b) = true.
Proof.
  unfold contains_char. rewrite existsb_app. cbn [existsb].
  now rewrite N.eqb_refl, orb_true_r.
Qed.

Lemma item_nth {A} (l : list A) (i : nat) (d : A) :
  i < List.length l -> item l i = Ok (nth i l d).
Proof.
  intros H. unfold item.
  destruct (nth_error l i) eqn:E.
  - now rewrite (nth_error_nth l i d E).
  - apply nth_error_None in E. lia.
Qed.

(** ** Digits and [int] *)

Section IntFacts.
Context {U : UnicodeData} {I : Interpreter}.

Lemma ascii_digit_range (c d : N) :
  ascii_digit c = Some d -> (48 <= c <= 57)%N.
Proof.
  unfold ascii_digit.
  destruct ((48 <=? c) && (c <=? 57))%N eqn:E; [|discriminate].
  rewrite andb_true_iff, !N.leb_le in E. tauto.
Qed.

Lemma is_digit_not_int_space (c : N) : is_digit c = true -> int_space c = false.
Proof.
  unfold is_digit, int_space.
  destruct (digit_value c) as [d|] eqn:E; [intros _ | discriminate].
  destruct (N.ltb_spec c 127) as [Hc|Hc].
  - rewrite ascii_digit_value in E by lia.
    apply ascii_digit_range in E.
    apply not_true_is_false. intros H.
    rewrite orb_true_iff, andb_true_iff, !N.leb_le, N.eqb_eq in H. lia.
  - exact (digit_not_space c d E).
Qed.

Lemma is_decimal_is_digit (c : N) : is_decimal c = true -> is_digit c = true.
Proof.
  unfold is_decimal, is_digit.
  destruct (decimal_value c) as [d|] eqn:E; [intros _ | discriminate].
  now rewrite (decimal_is_digit c d E).
Qed.

Lemma is_digit_ascii (c : N) :
  is_digit c = true -> (c < 128)%N -> (48 <= c <= 57)%N.
Proof.
  unfold is_digit. intros H Hc. rewrite ascii_digit_value in H by exact Hc.
  destruct (ascii_digit c) eqn:E; [|discriminate].
  exact (ascii_digit_range c _ E).
Qed.

Lemma forallb_decimal_digit (s : pystr) :
  forallb is_decimal s = true -> forallb is_digit s = true.
Proof.
  rewrite !forallb_forall. intros H c Hc. apply is_decimal_is_digit, H, Hc.
Qed.

(** On decimal digits [int_digits] reads the number off. *)
Lemma int_digits_decimal (s : pystr) :
  forall acc prev,
    forallb is_decimal s = true -> s <> [] \/ prev = true ->
    exists n, int_digits s acc prev = Some n /\
              Z.of_N n = fold_left (fun a c => (10 * a + decimal_digit c)%Z) s
                                   (Z.of_N acc).
Proof.
  induction s as [|c r IH]; intros acc prev Hall Hne.
  - destruct Hne as [Hne | ->]; [congruence|]. exists acc. split; reflexivity.
  - simpl in Hall. apply andb_true_iff in Hall as [Hc Hr].
    cbn [int_digits fold_left]. unfold is_decimal in Hc.
    destruct (decimal_value c) as [d|] eqn:E; [|discriminate].
    assert (Hd : decimal_digit c = Z.of_N d)
      by (unfold decimal_digit; now rewrite E).
    destruct (IH (10 * acc + d)%N true Hr (or_intror eq_refl)) as (n & Hn & Hv).
    exists n. split; [exact Hn|]. rewrite Hv, Hd. f_equal. lia.
Qed.

(** What [int_digits] accepts of a string of digits is decimal throughout. *)
Lemma int_digits_of_digits (s : pystr) :
  forall acc prev n,
    int_digits s acc prev = Some n -> forallb is_digit s = true ->
    forallb is_decimal s = true.
Proof.
  induction s as [|c r IH]; intros acc prev n Hn Hd; [reflexivity|].
  simpl in *. apply andb_true_iff in Hd as [Hc Hr].
  unfold is_decimal at 1.
  destruct (decimal_value c) as [d|]; [exact (IH _ _ _ Hn Hr)|].
  destruct (N.eqb_spec c underscore) as [->|]; [|discriminate].
  apply is_digit_ascii in Hc; unfold underscore in *; lia.
Qed.

Lemma int_some (s : pystr) (v : Z) : int s = Some v -> int_literal s = Some v.
Proof.
  unfold int. destruct (int_literal s); [|discriminate].
  now destruct (over_digit_limit s).
Qed.

Lemma int_within_limit (s : pystr) :
  over_digit_limit s = false -> int s = int_literal s.
Proof. intros H. unfold int. rewrite H. now destruct (int_literal s). Qed.

Lemma count_digits_le (s : pystr) : count_digits s <= List.length s.
Proof. apply filter_length_le. Qed.

(** The limit never applies to a literal of at most 640 characters. *)
Lemma short_within_limit (s : pystr) :
  List.length s <= 640 -> over_digit_limit s = false.
Proof.
  intros H. unfold over_digit_limit.
  replace (640 <? count_digits s) with false; [reflexivity|].
  symmetry. apply Nat.ltb_ge. pose proof (count_digits_le s). lia.
Qed.

Lemma int_of_unsigned (s : pystr) :
  isdigit s = true ->
  int_literal s = option_map Z.of_N (int_digits s 0%N false).
Proof.
  intros Hd. unfold int_literal.
  assert (Hall : forallb is_digit s = true) by (destruct s; [discriminate | exact Hd]).
  rewrite strip_with_fixed.
  2:{ intros c Hc. apply is_digit_not_int_space.
      exact (proj1 (forallb_forall _ _) Hall c Hc). }
  destruct s as [|c r]; [discriminate|].
  simpl in Hall. apply andb_true_iff in Hall as [Hc _].
  destruct (N.eqb_spec c minus_sign) as [->|_].
  { apply is_digit_ascii in Hc; unfold minus_sign in *; lia. }
  destruct (N.eqb_spec c plus_sign) as [->|_]; [|reflexivity].
  apply is_digit_ascii in Hc; unfold plus_sign in *; lia.
Qed.

Lemma spec_decimal_some (s : pystr) (v : Z) :
  spec_decimal s = Some v ->
  s <> [] /\ forallb is_decimal s = true /\
  v = fold_left (fun a c => (10 * a + decimal_digit c)%Z) s 0%Z.
Proof.
  unfold spec_decimal. destruct s as [|c r]; [discriminate|].
  destruct (forallb is_decimal (c :: r)); [|discriminate].
  intros [= <-]. repeat split. discriminate.
Qed.

Lemma spec_decimal_isdigit (s : pystr) (v : Z) :
  spec_decimal s = Some v -> isdigit s = true.
Proof.
  intros H. apply spec_decimal_some in H as (Hne & Hall & _).
  destruct s; [congruence|]. apply forallb_decimal_digit, Hall.
Qed.

(** A text of decimal digits is a literal of its value. *)
Lemma int_literal_of_decimal (s : pystr) (v : Z) :
  spec_decimal s = Some v -> int_literal s = Some v.
Proof.
  intros H.
  rewrite int_of_unsigned by exact (spec_decimal_isdigit s v H).
  apply spec_decimal_some in H as (Hne & Hall & ->).
  destruct (int_digits_decimal s 0%N false Hall (or_introl Hne)) as (n & -> & Hv).
  simpl. now rewrite Hv.
Qed.

(** A text of decimal digits within the limit converts to its value. *)
Lemma int_of_decimal (s : pystr) (v : Z) :
  spec_decimal s = Some v -> over_digit_limit s = false -> int s = Some v.
Proof.
  intros H Hl. rewrite (int_within_limit s Hl).
  exact (int_literal_of_decimal s v H).
Qed.

(** Where [isdigit] holds and [int] returns, the text is decimal. *)
Lemma int_isdigit_decimal (s : pystr) (v : Z) :
  isdigit s = true -> int s = Some v -> spec_decimal s = Some v.
Proof.
  intros Hd Hi. pose proof Hi as Hlim. apply int_some in Hi.
  assert (Hall : forallb is_digit s = true) by (destruct s; [discriminate | exact Hd]).
  rewrite int_of_unsigned in Hi by exact Hd.
  destruct (int_digits s 0%N false) as [n|] eqn:En; [|discriminate].
  pose proof (int_digits_of_digits s 0%N false n En Hall) as Hdec.
  assert (Hs : exists w, spec_decimal s = Some w).
  { unfold spec_decimal. destruct s; [discriminate|]. rewrite Hdec. eauto. }
  destruct Hs as [w Hw]. rewrite Hw. f_equal.
  apply spec_decimal_some in Hw as (Hne & _ & ->).
  destruct (int_digits_decimal s 0%N false Hdec (or_introl Hne)) as (m & Hm & Hv).
  rewrite Hm in En. injection En as <-. simpl in Hi. injection Hi as <-.
  now rewrite Hv.
Qed.

(** A signed decimal text is a literal of its value. *)
Lemma int_literal_of_signed_decimal (s : pystr) (v : Z) :
  spec_signed_decimal s = Some v -> int_literal s = Some v.
Proof.
  unfold spec_signed_decimal. destruct s as [|c r]; [discriminate|].
  destruct (N.eqb_spec c minus_sign) as [->|Hc].
  2:{ intros H. rewrite int_of_unsigned by exact (spec_decimal_isdigit _ v H).
      apply spec_decimal_some in H as (Hne & Hall & ->).
      destruct (int_digits_decimal (c :: r) 0%N false Hall (or_introl Hne))
        as (n & -> & Hv).
      simpl. now rewrite Hv. }
  destruct (spec_decimal r) as [w|] eqn:Hw; [|discriminate].
  intros [= <-]. apply spec_decimal_some in Hw as (Hne & Hall & ->).
  unfold int_literal. rewrite strip_with_fixed.
  - rewrite N.eqb_refl.
    destruct (int_digits_decimal r 0%N false Hall (or_introl Hne)) as (n & -> & Hv).
    simpl. now rewrite Hv.
  - intros c [<- | Hc]; [reflexivity|].
    apply is_digit_not_int_space, is_decimal_is_digit.
    exact (proj1 (forallb_forall _ _) Hall c Hc).
Qed.

(** A signed decimal text within the limit converts to its value. *)
Lemma int_of_signed_decimal (s : pystr) (v : Z) :
  spec_signed_decimal s = Some v -> over_digit_limit s = false ->
  int s = Some v.
Proof.
  intros H Hl. rewrite (int_within_limit s Hl).
  now apply int_literal_of_signed_decimal.
Qed.

End IntFacts.

(** ** Cells and rows *)

Section RowFacts.
Context {U : UnicodeData} {I : Interpreter}.

Lemma newline_is_space : isspace_cp newline = true.
Proof. rewrite ascii_isspace by (unfold newline; lia). reflexivity. Qed.

Lemma strip_no_trailing_newline (raw pre : pystr) : strip raw <> pre ++ [newline].
Proof.
  unfold strip, strip_with. intros H.
  apply rstrip_with_last in H. rewrite newline_is_space in H. discriminate.
Qed.

Lemma cell_texts_stripped (tr : node) (c : pystr) :
  In c (cell_texts tr) -> exists raw, c = strip raw.
Proof.
  unfold cell_texts. rewrite in_map_iff. intros (n & <- & _). eauto.
Qed.

Lemma re_digits_end_decimal (r : pystr) :
  (forall pre, r <> pre ++ [newline]) -> re_digits_end r = forallb is_decimal r.
Proof.
  induction r as [|c r IH]; intros Hn; simpl; [reflexivity|].
  destruct (is_decimal c) eqn:E.
  - apply IH. intros pre ->. exact (Hn (c :: pre) eq_refl).
  - destruct r; [|apply andb_false_r].
    rewrite andb_true_r. apply N.eqb_neq. intros ->. exact (Hn [] eq_refl).
Qed.

Lemma re_digits1_end_spec (r : pystr) :
  (forall pre, r <> pre ++ [newline]) ->
  re_digits1_end r = match spec_decimal r with Some _ => true | None => false end.
Proof.
  intros Hn. destruct r as [|c r]; [reflexivity|].
  unfold re_digits1_end, spec_decimal. rewrite re_digits_end_decimal.
  - simpl. now destruct (is_decimal c && forallb is_decimal r).
  - intros pre ->. exact (Hn (c :: pre) eq_refl).
Qed.

Lemma re_match_signed_spec (c : pystr) :
  (forall pre, c <> pre ++ [newline]) ->
  re_match_signed c
  = match spec_signed_decimal c with Some _ => true | None => false end.
Proof.
  intros Hn. destruct c as [|x r]; [reflexivity|].
  unfold re_match_signed, spec_signed_decimal.
  destruct (N.eqb x minus_sign).
  - rewrite re_digits1_end_spec.
    + now destruct (spec_decimal r).
    + intros pre ->. exact (Hn (x :: pre) eq_refl).
  - now apply re_digits1_end_spec.
Qed.

(** The plus/minus cell, when its conversion returns: the signed value, or
    the default. *)
Lemma signed_field_ok (c : pystr) (v : Z) :
  (forall pre, c <> pre ++ [newline]) ->
  signed_field c = Ok v -> v = or_zero (spec_signed_decimal c).
Proof.
  intros Hn. unfold signed_field. rewrite (re_match_signed_spec c Hn).
  destruct (spec_signed_decimal c) as [w|] eqn:E; [|now intros [= <-]].
  unfold py_int. destruct (int c) as [z|] eqn:Hi; [|discriminate].
  intros [= <-]. apply int_some in Hi.
  rewrite (int_literal_of_signed_decimal c w E) in Hi. now injection Hi as <-.
Qed.

(** The plus/minus cell converts unless the limit on digits refuses it. *)
Lemma signed_field_converts (c : pystr) :
  (forall pre, c <> pre ++ [newline]) ->
  signed_cell_converts c = true ->
  signed_field c = Ok (or_zero (spec_signed_decimal c)).
Proof.
  intros Hn. unfold signed_cell_converts, signed_field.
  rewrite (re_match_signed_spec c Hn).
  destruct (spec_signed_decimal c) as [v|] eqn:E; [|reflexivity].
  cbn [andb]. rewrite negb_true_iff. intros Hl.
  unfold py_int. now rewrite (int_of_signed_decimal c v E Hl).
Qed.

Lemma spec_decimal_none_of_not_isdigit (c : pystr) :
  isdigit c = false -> spec_decimal c = None.
Proof.
  intros H. destruct (spec_decimal c) as [v|] eqn:E; [|reflexivity].
  apply spec_decimal_isdigit in E. congruence.
Qed.

(** A count cell, when its conversion returns: the value, or the default. *)
Lemma count_field_ok (c : pystr) (v : Z) :
  count_field c = Ok v -> v = or_zero (spec_decimal c).
Proof.
  unfold count_field, py_int. destruct (isdigit c) eqn:Hd.
  - destruct (int c) as [w|] eqn:Hi; [|discriminate]. intros [= <-].
    now rewrite (int_isdigit_decimal c w Hd Hi).
  - intros [= <-]. now rewrite spec_decimal_none_of_not_isdigit.
Qed.

(** A count cell on which [isdigit] and [int] agree always converts. *)
Lemma count_field_converts (c : pystr) :
  count_cell_converts c = true -> count_field c = Ok (or_zero (spec_decimal c)).
Proof.
  unfold count_cell_converts, count_field, py_int.
  destruct (isdigit c) eqn:Hd; simpl.
  - rewrite andb_true_iff, negb_true_iff. intros [Hall Hl].
    assert (E : exists v, spec_decimal c = Some v).
    { unfold spec_decimal. destruct c; [discriminate|]. rewrite Hall. eauto. }
    destruct E as [v E]. now rewrite (int_of_decimal c v E Hl), E.
  - intros _. now rewrite spec_decimal_none_of_not_isdigit.
Qed.

Lemma item_ok {A} (l : list A) (i : nat) (a d : A) :
  item l i = Ok a -> nth i l d = a /\ In a l.
Proof.
  unfold item. destruct (nth_error l i) as [b|] eqn:E; [|discriminate].
  intros [= <-]. split; [exact (nth_error_nth l i d E)|].
  exact (nth_error_In l i E).
Qed.

Ltac step_row H :=
  match type of H with
  | context [item ?l ?i] =>
      let E := fresh "Ei" in
      destruct (item l i) eqn:E; [apply (item_ok _ _ _ []) in E as [<- ?] | discriminate]
  | context [count_field ?c] =>
      let E := fresh "Ec" in
      destruct (count_field c) eqn:E; [apply count_field_ok in E as -> | discriminate]
  | context [signed_field ?c] =>
      let E := fresh "Es" in
      destruct (signed_field c) eqn:E; [|discriminate]
  end.

(** A row that yields a record yields the record of its cells. *)
Lemma row_to_stats_ok (cols : list pystr) (p : PlayerStats) :
  (forall c, In c cols -> forall pre, c <> pre ++ [newline]) ->
  row_to_stats cols = Ok p -> p = spec_record cols.
Proof.
  intros Hn H. unfold row_to_stats, rbind in H.
  repeat step_row H.
  apply signed_field_ok in Es; [|auto]. subst.
  injection H as <-. reflexivity.
Qed.

(** A row of twelve cells whose count cells convert yields its record. *)
Lemma row_to_stats_converts (cols : list pystr) :
  12 <= List.length cols ->
  (forall c, In c cols -> forall pre, c <> pre ++ [newline]) ->
  row_converts cols = true ->
  row_to_stats cols = Ok (spec_record cols).
Proof.
  intros Hlen Hn Hc. unfold row_converts in Hc. cbn [forallb] in Hc.
  rewrite !andb_true_iff in Hc.
  destruct Hc as ((H5 & H6 & H7 & H8 & H10 & _) & H9).
  unfold row_to_stats, rbind.
  rewrite !(item_nth cols _ []) by lia.
  rewrite !count_field_converts by assumption.
  rewrite signed_field_converts; [reflexivity | | exact H9].
  apply Hn, nth_In. lia.
Qed.

Lemma skip_condition (tr : node) :
  is_empty (cell_texts tr) || (List.length (cell_texts tr) <? 12)
  = negb (has_12_cells tr).
Proof.
  unfold has_12_cells. destruct (cell_texts tr) as [|c l]; [reflexivity|].
  cbn [is_empty orb]. rewrite Nat.leb_antisym. now rewrite negb_involutive.
Qed.

Lemma parse_rows_flat_map (rows : list node) :
  forall players, parse_rows rows players = players ++ flat_map row_output rows.
Proof.
  induction rows as [|tr rest IH]; intros players; cbn [parse_rows flat_map].
  - now rewrite app_nil_r.
  - rewrite skip_condition. unfold row_output at 1.
    destruct (has_12_cells tr); cbn [negb]; [|apply IH].
    destruct (row_to_stats (cell_texts tr)); rewrite IH; [|reflexivity].
    now rewrite <- app_assoc.
Qed.

(** Rows are independent: the list of a table is the lists of its parts. *)
Lemma parse_rows_app (a b : list node) :
  parse_rows (a ++ b) [] = parse_rows a [] ++ parse_rows b [].
Proof. rewrite !parse_rows_flat_map. simpl. apply flat_map_app. Qed.

(** A row with fewer than twelve cells, wherever it stands, changes nothing. *)
Lemma parse_rows_short_row (a b : list node) (tr : node) :
  has_12_cells tr = false ->
  parse_rows (a ++ tr :: b) [] = parse_rows (a ++ b) [].
Proof.
  intros H. rewrite !parse_rows_flat_map. simpl. rewrite !flat_map_app. simpl.
  unfold row_output at 2. now rewrite H.
Qed.

End RowFacts.

(** ** The table parser *)

Lemma is_stats_table_iff {U : UnicodeData} (t : node) :
  is_stats_table t = true <-> In player_label (cell_texts t).
Proof.
  unfold is_stats_table. rewrite andb_true_iff, existsb_exists. split.
  - intros (_ & c & Hc & E). apply str_eqb_eq in E. now subst.
  - intros H. split.
    + destruct (cell_texts t); [contradiction | reflexivity].
    + exists player_label. split; [exact H | apply str_eqb_refl].
Qed.

Lemma find_first {A} (f : A -> bool) (pre post : list A) (x : A) :
  (forall y, In y pre -> f y = false) -> f x = true ->
  find f (pre ++ x :: post) = Some x.
Proof.
  intros Hpre Hx. induction pre as [|y pre IH]; simpl.
  - now rewrite Hx.
  - rewrite (Hpre y (or_introl eq_refl)). apply IH.
    intros z Hz. apply Hpre. now right.
Qed.

(** C1. A count cell made of the digit SUPERSCRIPT TWO passes [isdigit],
    is no text of decimal digits, and makes [int] raise: the row of twelve
    cells that holds it is dropped, where a record with the default 0 in
    that field was to be produced. *)
Theorem count_cell_superscript_drops_row :
  isdigit (U := ucd_sample) superscript_two = true /\
  spec_decimal (U := ucd_sample) superscript_two = None /\
  has_12_cells (U := ucd_sample) row_superscript = true /\
  count_field (U := ucd_sample) superscript_two = Raise (ValueError InvalidLiteral) /\
  row_to_stats (U := ucd_sample) (cell_texts row_superscript)
  = Raise (ValueError InvalidLiteral) /\
  parse_soup (U := ucd_sample) (page_of [row_superscript]) = Ok [].
Proof. repeat split; vm_compute; reflexivity. Qed.



(** C3. A row of twelve cells is skipped, where only rows of fewer than
    twelve cells were to be: the guard [isdigit] of a count cell does not
    keep [int] from raising, on a digit character that is no decimal digit
    and on a text of more decimal digits than the interpreter converts, and
    the row is dropped with the exception.  Of three rows of twelve cells
    two records are returned. *)
Theorem twelve_cell_row_skipped :
  has_12_cells (U := ucd_sample) row_superscript = true
  /\ isdigit (U := ucd_sample) superscript_two = true
  /\ parse_soup (U := ucd_sample) (page_of [row_petrov; row_superscript; row_ivanov])
     = Ok [petrov; ivanov]
  /\ has_12_cells (U := ucd_sample) row_long_count = true
  /\ isdigit (U := ucd_sample) long_count = true
  /\ forallb (is_decimal (U := ucd_sample)) long_count = true
  /\ row_to_stats (U := ucd_sample) (cell_texts row_long_count)
     = Raise (ValueError DigitLimit)
  /\ parse_soup (U := ucd_sample) (page_of [row_petrov; row_long_count; row_ivanov])
     = Ok [petrov; ivanov].
Proof. repeat apply conj; vm_compute; reflexivity. Qed.

(** Row isolation.  For a table in whose rows of at least twelve cells
    every conversion returns (each count cell fails [isdigit] or is decimal
    throughout, and no number has more digits than the interpreter
    converts), [parse_html] skips the header row and exactly the rows with
    fewer than twelve cells, and returns, in row order, for each remaining
    row the record of that row's cells alone. *)
Theorem parse_soup_skips_short_rows {U : UnicodeData} {I : Interpreter} (soup table : node) :
  find is_stats_table (find_all [lit "table"] soup) = Some table ->
  (forall tr, In tr (tl (find_all [lit "tr"] table)) ->
              has_12_cells tr = true -> row_converts (cell_texts tr) = true) ->
  parse_soup soup
  = Ok (map (fun tr => spec_record (cell_texts tr))
            (filter has_12_cells (tl (find_all [lit "tr"] table)))).
Proof.
  intros Ht Hrows. unfold parse_soup. rewrite Ht. f_equal.
  rewrite parse_rows_flat_map. simpl.
  induction (tl (find_all [lit "tr"] table)) as [|tr rest IH]; [reflexivity|].
  cbn [flat_map filter]. unfold row_output at 1.
  destruct (has_12_cells tr) eqn:E12.
  - rewrite row_to_stats_converts.
    + simpl. f_equal. apply IH. intros; apply Hrows; [now right | assumption].
    + unfold has_12_cells in E12. now apply Nat.leb_le.
    + intros c Hc pre. apply cell_texts_stripped in Hc as [raw ->].
      apply strip_no_trailing_newline.
    + apply Hrows; [now left | exact E12].
  - simpl. apply IH. intros; apply Hrows; [now right | assumption].
Qed.

Lemma parse_soup_skips_short_rows_witness :
  parse_soup (U := ucd_sample) (page_of [row_petrov; row_short; row_ivanov; row_sidorov])
  = Ok (map (fun tr => spec_record (U := ucd_sample) (cell_texts tr))
            (filter has_12_cells [row_petrov; row_short; row_ivanov; row_sidorov]))
  /\ map (fun tr => spec_record (U := ucd_sample) (cell_texts tr))
         (filter has_12_cells [row_petrov; row_short; row_ivanov; row_sidorov])
     = [petrov; ivanov; sidorov].
Proof.
  split; [|reflexivity].
  apply (parse_soup_skips_short_rows (U := ucd_sample)
           (page_of [row_petrov; row_short; row_ivanov; row_sidorov])
           (Tag (lit "table")
              [header_row; row_petrov; row_short; row_ivanov; row_sidorov])).
  - reflexivity.
  - intros tr Hin _.
    change (In tr [row_petrov; row_short; row_ivanov; row_sidorov]) in Hin.
    destruct Hin as [<- | [<- | [<- | [<- | []]]]]; reflexivity.
Defined.

(** C4. [parse_html] takes the first table, in document order, one of
    whose cell texts is the player-name label; it raises the table-not-found
    error exactly when no table of the document has the label, and raises
    nothing else. *)
Theorem parse_soup_selects_first_table {U : UnicodeData} {I : Interpreter} (soup : node) :
  (parse_soup soup = Raise (ValueError TableNotFound) <->
   forall t, In t (find_all [lit "table"] soup) ->
             ~ In player_label (cell_texts t))
  /\ (forall e, parse_soup soup = Raise e -> e = ValueError TableNotFound)
  /\ (forall pre t post,
        find_all [lit "table"] soup = pre ++ t :: post ->
        (forall t', In t' pre -> ~ In player_label (cell_texts t')) ->
        In player_label (cell_texts t) ->
        parse_soup soup = Ok (parse_rows (tl (find_all [lit "tr"] t)) [])).
Proof.
  unfold parse_soup. split; [|split].
  - destruct (find is_stats_table (find_all [lit "table"] soup)) as [t|] eqn:E.
    + split; [discriminate|]. intros H. exfalso.
      apply find_some in E as [Hin Ht].
      apply (H t Hin). now apply is_stats_table_iff.
    + split; [|reflexivity]. intros _ t Hin Hl.
      apply is_stats_table_iff in Hl.
      rewrite (find_none _ _ E t Hin) in Hl. discriminate.
  - destruct (find is_stats_table (find_all [lit "table"] soup));
      [discriminate | now intros e [= <-]].
  - intros pre t post -> Hpre Ht. rewrite find_first; [reflexivity | |].
    + intros t' Hin. apply not_true_is_false. intros H.
      apply is_stats_table_iff in H. exact (Hpre t' Hin H).
    + now apply is_stats_table_iff.
Qed.

Lemma parse_soup_selects_first_table_witness :
  parse_soup (U := ucd_sample) (page_of [row_petrov])
  = Ok (parse_rows (U := ucd_sample)
          (tl (find_all [lit "tr"] (Tag (lit "table") [header_row; row_petrov])))
          [])
  /\ parse_soup (U := ucd_sample) (Tag (lit "[document]") [td player_label])
     = Raise (ValueError TableNotFound).
Proof.
  destruct (parse_soup_selects_first_table (U := ucd_sample)
              (page_of [row_petrov])) as (_ & _ & Hfirst).
  destruct (parse_soup_selects_first_table (U := ucd_sample)
              (Tag (lit "[document]") [td player_label])) as (Hnone & _ & _).
  split.
  - apply (Hfirst [Tag (lit "table") [tr_of [td (lit "menu")]]]
                  (Tag (lit "table") [header_row; row_petrov]) []).
    + reflexivity.
    + intros t' [<- | []]. vm_compute. intuition discriminate.
    + vm_compute. auto.
  - apply Hnone. intros t [].
Defined.

(** ** Season resolution *)

Section SeasonFacts.
Context {U : UnicodeData} {I : Interpreter}.

Lemma decimal_no_slash (s : pystr) :
  forallb is_decimal s = true -> contains_char slash s = false.
Proof.
  unfold contains_char.
  induction s as [|c r IH]; cbn [existsb forallb]; [reflexivity|].
  rewrite andb_true_iff. intros [Hc Hr]. rewrite (IH Hr), orb_false_r.
  apply N.eqb_neq. intros <-.
  apply is_decimal_is_digit, is_digit_ascii in Hc; unfold slash in *; lia.
Qed.

Lemma lstrip_with_incl (sp : N -> bool) (s : pystr) (c : N) :
  In c (lstrip_with sp s) -> In c s.
Proof.
  induction s as [|x s IH]; simpl; [tauto|].
  destruct (sp x); [|tauto]. intros H. right. exact (IH H).
Qed.

Lemma strip_with_incl (sp : N -> bool) (s : pystr) (c : N) :
  In c (strip_with sp s) -> In c s.
Proof.
  unfold strip_with, rstrip_with. intros H.
  apply in_rev, lstrip_with_incl, in_rev, lstrip_with_incl in H. exact H.
Qed.

Lemma int_digits_ascii (s : pystr) :
  forallb (fun c => c <? 127)%N s = true ->
  forall acc prev,
    int_digits s acc prev = int_digits (U := ucd_sample) s acc prev.
Proof.
  induction s as [|c r IH]; intros Hs acc prev; [reflexivity|].
  simpl in Hs. apply andb_true_iff in Hs as [Hc Hr]. apply N.ltb_lt in Hc.
  cbn [int_digits].
  rewrite (ascii_decimal c) by lia.
  rewrite (ascii_decimal (UnicodeData := ucd_sample) c) by lia.
  destruct (ascii_digit c); [|destruct (N.eqb c underscore && prev)]; auto.
Qed.

(** On Basic Latin text [int] does not depend on the character database. *)
Lemma int_literal_ascii (s : pystr) :
  forallb (fun c => c <? 127)%N s = true ->
  int_literal s = int_literal (U := ucd_sample) s.
Proof.
  intros Hs. unfold int_literal.
  assert (Hstrip : strip_with int_space s
                   = strip_with (int_space (U := ucd_sample)) s).
  { apply strip_with_ext. intros c Hc.
    pose proof (proj1 (forallb_forall _ _) Hs c Hc) as Hlt.
    unfold int_space. now rewrite Hlt. }
  rewrite Hstrip.
  assert (Hsub : forallb (fun c => c <? 127)%N
                   (strip_with (int_space (U := ucd_sample)) s) = true).
  { apply forallb_forall. intros c Hc. apply strip_with_incl in Hc.
    exact (proj1 (forallb_forall _ _) Hs c Hc). }
  destruct (strip_with (int_space (U := ucd_sample)) s) as [|c r]; [reflexivity|].
  pose proof Hsub as Hr. simpl in Hr. apply andb_true_iff in Hr as [_ Hr].
  now rewrite (int_digits_ascii r Hr), (int_digits_ascii (c :: r) Hsub).
Qed.

Lemma is_decimal_ascii (c : N) :
  (c < 127)%N -> is_decimal c = is_decimal (U := ucd_sample) c.
Proof.
  intros Hc. unfold is_decimal. rewrite (ascii_decimal c) by lia.
  now rewrite (ascii_decimal (UnicodeData := ucd_sample) c) by lia.
Qed.

Lemma count_digits_ascii (s : pystr) :
  forallb (fun c => c <? 127)%N s = true ->
  count_digits s = count_digits (U := ucd_sample) s.
Proof.
  unfold count_digits. induction s as [|c r IH]; [reflexivity|].
  cbn [forallb filter]. rewrite andb_true_iff. intros [Hc Hr].
  apply N.ltb_lt in Hc. rewrite (is_decimal_ascii c Hc).
  destruct (is_decimal (U := ucd_sample) c); cbn [List.length];
    now rewrite (IH Hr).
Qed.

Lemma py_int_ascii (s : pystr) :
  forallb (fun c => c <? 127)%N s = true ->
  py_int s = py_int (U := ucd_sample) s.
Proof.
  intros Hs. unfold py_int, int, over_digit_limit.
  now rewrite (int_literal_ascii s Hs), (count_digits_ascii s Hs).
Qed.

Lemma split_ascii (sep : N) (s : pystr) :
  forallb (fun c => c <? 127)%N s = true ->
  forall p, In p (split sep s) -> forallb (fun c => c <? 127)%N p = true.
Proof.
  induction s as [|c r IH]; simpl.
  - intros _ p [<- | []]. reflexivity.
  - rewrite andb_true_iff. intros [Hc Hr] p.
    specialize (IH Hr). destruct (N.eqb c sep).
    + intros [<- | Hp]; [reflexivity | now apply IH].
    + destruct (split sep r) as [|h t].
      * intros [<- | []]. simpl. now rewrite Hc.
      * intros [<- | Hp].
        -- simpl. rewrite Hc. apply IH. now left.
        -- apply IH. now right.
Qed.

Lemma season_to_year_ascii (s : pystr) :
  forallb (fun c => c <? 127)%N s = true ->
  _season_to_year s = _season_to_year (U := ucd_sample) s.
Proof.
  intros Hs. unfold _season_to_year, rbind, item.
  destruct (contains_char slash s); [|now apply py_int_ascii].
  destruct (nth_error (split slash s) 1) as [p|] eqn:E; [|reflexivity].
  rewrite (py_int_ascii p); [reflexivity|].
  apply (split_ascii slash s Hs), (nth_error_In _ _ E).
Qed.

End SeasonFacts.

(** C5, as the claim states it, fails: an identifier that is neither a
    two-year string nor a plain year resolves when its second component is
    a year. *)
Lemma malformed_season_resolves :
  spec_decimal (U := ucd_sample) (lit "abc") = None
  /\ spec_decimal (U := ucd_sample) (lit "abc/2025") = None
  /\ _season_to_year (U := ucd_sample) (lit "abc/2025") = Ok 2025%Z
  /\ _season_to_year (U := ucd_sample) (lit "2024/2025/7") = Ok 2025%Z.
Proof. repeat split; vm_compute; reflexivity. Qed.

(** An identifier with a separator: what precedes the first separator, what
    lies between it and the next, and the rest. *)
Lemma season_components (s : pystr) :
  contains_char slash s = true ->
  exists first second tail,
    s = first ++ slash :: second ++ tail
    /\ contains_char slash first = false
    /\ contains_char slash second = false
    /\ (tail = [] \/ exists rest, tail = slash :: rest).
Proof.
  assert (Hcut : forall r, exists second tail,
             r = second ++ tail /\ contains_char slash second = false
             /\ (tail = [] \/ exists rest, tail = slash :: rest)).
  { induction r as [|c r (second & tail & -> & Hs & Ht)].
    - exists [], []. auto.
    - destruct (N.eqb_spec slash c) as [<-|Hc].
      + exists [], (slash :: second ++ tail). split; [reflexivity|].
        split; [reflexivity | right; eauto].
      + exists (c :: second), tail. split; [reflexivity|]. split; [|exact Ht].
        unfold contains_char in *. cbn [existsb]. rewrite Hs, orb_false_r.
        now apply N.eqb_neq. }
  unfold contains_char. induction s as [|c r IH]; cbn [existsb]; [discriminate|].
  destruct (N.eqb_spec slash c) as [<-|Hc].
  - intros _. destruct (Hcut r) as (second & tail & -> & Hs & Ht).
    exists [], second, tail. auto.
  - cbn [orb]. intros Hr.
    destruct (IH Hr) as (first & second & tail & -> & Hf & Hs & Ht).
    exists (c :: first), second, tail. split; [reflexivity|].
    split; [|auto]. fold (contains_char slash first) in Hf.
    unfold contains_char. cbn [existsb].
    unfold contains_char in Hf. rewrite Hf, orb_false_r. now apply N.eqb_neq.
Qed.

(** C5 (amended). An identifier with a separator resolves to the value of
    what stands between its first separator and the next, whatever precedes
    and follows, and raises the invalid-season [ValueError] when [int]
    refuses that component; an identifier without a separator resolves to
    its own value and raises the [ValueError] of [int] when [int] refuses
    it.  So a two-year string gives its second year and a plain year its
    value, unless the year has more digits than the interpreter converts,
    which no text of 640 characters or fewer has; and no other exception is
    raised. *)
Theorem season_to_year_resolution {U : UnicodeData} {I : Interpreter} :
  (forall first_year last_year y,
      spec_decimal first_year <> None -> spec_decimal last_year = Some y ->
      _season_to_year (first_year ++ slash :: last_year)
      = if over_digit_limit last_year
        then Raise (ValueError InvalidSeasonFormat) else Ok y)
  /\ (forall year y,
        spec_decimal year = Some y ->
        _season_to_year year
        = if over_digit_limit year then Raise (ValueError DigitLimit) else Ok y)
  /\ (forall s, List.length s <= 640 -> over_digit_limit s = false)
  /\ (forall first second tail,
        contains_char slash first = false ->
        contains_char slash second = false ->
        tail = [] \/ (exists rest, tail = slash :: rest) ->
        _season_to_year (first ++ slash :: second ++ tail)
        = match int second with
          | Some y => Ok y
          | None => Raise (ValueError InvalidSeasonFormat)
          end)
  /\ (forall s,
        contains_char slash s = false ->
        match int s with
        | Some y => _season_to_year s = Ok y
        | None => exists m, _season_to_year s = Raise (ValueError m)
        end)
  /\ (forall s e, _season_to_year s = Raise e -> is_ValueError e = true)
  /\ _season_to_year (lit "2024/2025") = Ok 2025%Z
  /\ _season_to_year (lit "2025") = Ok 2025%Z
  /\ _season_to_year (lit "bad") = Raise (ValueError InvalidLiteral).
Proof.
  assert (Hsep : forall first second tail,
             contains_char slash first = false ->
             contains_char slash second = false ->
             tail = [] \/ (exists rest, tail = slash :: rest) ->
             _season_to_year (first ++ slash :: second ++ tail)
             = match int second with
               | Some y => Ok y
               | None => Raise (ValueError InvalidSeasonFormat)
               end).
  { intros first second tail Hf Hs Ht. unfold _season_to_year.
    rewrite contains_char_app_sep, (split_app_sep slash first _ Hf).
    assert (E : exists l, split slash (second ++ tail) = second :: l).
    { destruct Ht as [-> | [rest ->]].
      - rewrite app_nil_r, (split_no_sep slash second Hs). eauto.
      - rewrite (split_app_sep slash second rest Hs). eauto. }
    destruct E as [l ->]. unfold item, rbind, py_int. cbn [nth_error].
    now destruct (int second). }
  assert (Hplain : forall s,
             contains_char slash s = false ->
             match int s with
             | Some y => _season_to_year s = Ok y
             | None => exists m, _season_to_year s = Raise (ValueError m)
             end).
  { intros s Hs. unfold _season_to_year, py_int. rewrite Hs.
    destruct (int s); eauto. }
  split; [|split; [|split; [exact short_within_limit
                            | split; [exact Hsep | split; [exact Hplain | split]]]]].
  - intros a b y Ha Hb.
    pose proof (spec_decimal_some _ _ Hb) as (_ & Hb' & _).
    destruct (spec_decimal a) as [w|] eqn:Ea; [clear Ha | congruence].
    apply spec_decimal_some in Ea as (_ & Ha & _).
    rewrite <- (app_nil_r b) at 1.
    rewrite (Hsep a b [] (decimal_no_slash a Ha) (decimal_no_slash b Hb')
               (or_introl eq_refl)).
    unfold int. rewrite (int_literal_of_decimal b y Hb).
    now destruct (over_digit_limit b).
  - intros s y Hs.
    pose proof (spec_decimal_some _ _ Hs) as (_ & Hs' & _).
    unfold _season_to_year, py_int. rewrite (decimal_no_slash s Hs').
    unfold int. rewrite (int_literal_of_decimal s y Hs).
    now destruct (over_digit_limit s).
  - intros s e He.
    destruct (contains_char slash s) eqn:Ec.
    + destruct (season_components s Ec) as (f & sec & t & -> & Hf & Hs & Ht).
      rewrite (Hsep f sec t Hf Hs Ht) in He.
      destruct (int sec); [discriminate | now injection He as <-].
    + pose proof (Hplain s Ec) as H.
      destruct (int s); [congruence|].
      destruct H as [m H]. rewrite H in He. now injection He as <-.
  - repeat split; now rewrite season_to_year_ascii.
Qed.

Lemma season_to_year_resolution_witness :
  spec_decimal (U := ucd_sample) (lit "2023") <> None
  /\ spec_decimal (U := ucd_sample) (lit "2024") = Some 2024%Z
  /\ _season_to_year (U := ucd_sample) (lit "2023" ++ slash :: lit "2024")
     = Ok 2024%Z.
Proof.
  assert (H1 : spec_decimal (U := ucd_sample) (lit "2023") <> None)
    by discriminate.
  assert (H2 : spec_decimal (U := ucd_sample) (lit "2024") = Some 2024%Z)
    by reflexivity.
  split; [exact H1 | split; [exact H2|]].
  exact (proj1 (season_to_year_resolution (U := ucd_sample))
           (lit "2023") (lit "2024") 2024%Z H1 H2).
Defined.

(** ** Search *)

Section SearchFacts.
Context {U : UnicodeData} {I : Interpreter}.

(** Below the limit, the loop collects the first matches up to the limit. *)
Lemma search_scan_matches (q : pystr) (limit : Z) (players : list PlayerStats) :
  forall matches,
    (Z.of_nat (List.length matches) < limit)%Z ->
    fst (search_scan q limit players matches)
    = matches ++ firstn (Z.to_nat limit - List.length matches)
                        (filter (name_starts_with q) players).
Proof.
  induction players as [|p rest IH]; intros matches Hlt; cbn [search_scan filter].
  - now rewrite firstn_nil, app_nil_r.
  - unfold name_starts_with at 1.
    destruct (startswith (lower (name p)) q); [|now apply IH].
    rewrite length_app. cbn [List.length].
    destruct (Z.leb_spec limit (Z.of_nat (List.length matches + 1))) as [Hle|Hgt].
    + replace (Z.to_nat limit - List.length matches) with 1 by lia.
      cbn [fst firstn]. reflexivity.
    + rewrite IH by (rewrite length_app; cbn [List.length]; lia).
      rewrite length_app. cbn [List.length].
      replace (Z.to_nat limit - List.length matches)
        with (S (Z.to_nat limit - (List.length matches + 1))) by lia.
      cbn [firstn]. now rewrite <- app_assoc.
Qed.

(** The loop leaves unread what follows the match that reached the limit. *)
Lemma search_scan_stops (q : pystr) (limit : Z) (players : list PlayerStats) :
  forall matches found unread,
    search_scan q limit players matches = (found, unread) ->
    exists scanned,
      players = scanned ++ unread /\
      found = matches ++ filter (name_starts_with q) scanned /\
      (unread <> [] -> (limit <= Z.of_nat (List.length found))%Z).
Proof.
  induction players as [|p rest IH]; intros matches found unread;
    cbn [search_scan].
  - intros [= <- <-]. exists []. cbn [filter app]. rewrite app_nil_r.
    split; [reflexivity | split; [reflexivity | congruence]].
  - destruct (startswith (lower (name p)) q) eqn:Ep.
    + destruct (Z.leb_spec limit (Z.of_nat (List.length (matches ++ [p])))) as [Hle|Hgt].
      * intros [= <- <-]. exists [p]. cbn [filter app].
        unfold name_starts_with. rewrite Ep. auto.
      * intros H. destruct (IH _ _ _ H) as (scanned & -> & -> & Hstop).
        exists (p :: scanned). cbn [filter app].
        unfold name_starts_with at 2. rewrite Ep.
        split; [reflexivity | split; [now rewrite <- app_assoc | exact Hstop]].
    + intros H. destruct (IH _ _ _ H) as (scanned & -> & -> & Hstop).
      exists (p :: scanned). cbn [filter app].
      unfold name_starts_with at 2. rewrite Ep. auto.
Qed.

(** With a limit of at least one, [search_players] returns the first
    [limit] players, in list order, whose lower-cased name starts with the
    trimmed, lower-cased query, and nothing for a query that trims to the
    empty string. *)
Lemma search_players_positive_limit (query : pystr) (players : list PlayerStats)
    (limit : Z) :
  (1 <= limit)%Z ->
  search_players query players limit
  = match strip query with
    | [] => []
    | _ => firstn (Z.to_nat limit)
                  (filter (name_starts_with (lower (strip query))) players)
    end.
Proof.
  intros Hl. unfold search_players.
  destruct (strip query) as [|c r] eqn:E.
  - now rewrite lower_nil.
  - destruct (lower (c :: r)) eqn:El.
    + apply lower_nil_inv in El. discriminate.
    + cbn [is_empty]. rewrite search_scan_matches by (simpl; lia).
      simpl. now rewrite Nat.sub_0_r.
Qed.

End SearchFacts.

(** C6. With a limit of 0 the first matching player is appended before the
    length is compared with the limit: one player is returned, more than
    the limit allows. *)
Theorem search_players_limit_zero :
  search_players (U := ucd_sample) (lit "i") [petrov; ivanov; sidorov] 0 = [ivanov]
  /\ (0 < Z.of_nat (List.length
         (search_players (U := ucd_sample) (lit "i") [petrov; ivanov; sidorov] 0)))%Z.
Proof. split; vm_compute; reflexivity. Qed.

(** ** Lookup *)

Lemma find_split {A} (f : A -> bool) (l : list A) (x : A) :
  find f l = Some x ->
  exists pre post, l = pre ++ x :: post /\ f x = true /\
                   forall y, In y pre -> f y = false.
Proof.
  induction l as [|a l IH]; simpl; [discriminate|].
  destruct (f a) eqn:E.
  - intros [= <-]. exists [], l. repeat split; [exact E | intros y []].
  - intros H. destruct (IH H) as (pre & post & -> & Hx & Hpre).
    exists (a :: pre), post. repeat split; [exact Hx|].
    intros y [<- | Hy]; [exact E | exact (Hpre y Hy)].
Qed.

Section LookupFacts.
Context {U : UnicodeData} {I : Interpreter}.

Lemma lstrip_with_suffix (sp : N -> bool) (s : pystr) :
  exists ws, s = ws ++ lstrip_with sp s.
Proof.
  induction s as [|c r [ws IH]]; simpl; [now exists []|].
  destruct (sp c); [|now exists []].
  exists (c :: ws). simpl. now rewrite <- IH.
Qed.

Lemma strip_with_idem (sp : N -> bool) (s : pystr) :
  strip_with sp (strip_with sp s) = strip_with sp s.
Proof.
  set (t := strip_with sp s).
  assert (Hlast : forall r c, t = r ++ [c] -> sp c = false).
  { intros r c. apply rstrip_with_last. }
  assert (Hhead : forall c r, t = c :: r -> sp c = false).
  { intros c r E. unfold t, strip_with, rstrip_with in E.
    destruct (lstrip_with_suffix sp (rev (lstrip_with sp s))) as [ws Hws].
    apply (f_equal (@rev N)) in Hws.
    rewrite rev_involutive, rev_app_distr, E in Hws.
    exact (lstrip_with_head sp s c _ Hws). }
  unfold strip_with at 1, rstrip_with.
  rewrite (lstrip_with_fixed sp t Hhead).
  rewrite lstrip_with_fixed; [apply rev_involutive|].
  intros c r E. apply (Hlast (rev r)).
  rewrite <- (rev_involutive t), E. reflexivity.
Qed.

Lemma parse_rows_in (rows : list node) (p : PlayerStats) :
  In p (parse_rows rows []) ->
  exists tr, In tr rows /\ has_12_cells tr = true /\
             row_to_stats (cell_texts tr) = Ok p.
Proof.
  rewrite parse_rows_flat_map. simpl. rewrite in_flat_map.
  intros (tr & Htr & Hp). exists tr. unfold row_output in Hp.
  destruct (has_12_cells tr); [|contradiction].
  destruct (row_to_stats (cell_texts tr)) as [p'|]; [|contradiction].
  destruct Hp as [<- | []]. auto.
Qed.

(** The names that [parse_html] stores are trimmed. *)
Lemma parsed_names_stripped (soup : node) (players : list PlayerStats)
    (p : PlayerStats) :
  parse_soup soup = Ok players -> In p players -> strip (name p) = name p.
Proof.
  unfold parse_soup.
  destruct (find is_stats_table (find_all [lit "table"] soup)); [|discriminate].
  intros [= <-] Hp. apply parse_rows_in in Hp as (tr & _ & H12 & Hrow).
  assert (Hname : In (name p) (cell_texts tr)).
  { unfold row_to_stats, rbind in Hrow.
    destruct (item (cell_texts tr) 1) as [nm|] eqn:E1; [|discriminate].
    apply (item_ok _ _ _ []) in E1 as [_ Hin].
    repeat match type of Hrow with
           | match ?x with Ok _ => _ | Raise _ => _ end = _ =>
               destruct x; [|discriminate]
           end.
    now injection Hrow as <-. }
  apply cell_texts_stripped in Hname as [raw ->].
  apply strip_with_idem.
Qed.

Lemma find_player_same_name (name_ : pystr) (players : list PlayerStats) :
  find_player name_ players
  = find (fun p => same_name_ci (name p) (strip name_)) players.
Proof.
  unfold find_player, same_name_ci, strip. now rewrite lower_strip.
Qed.

End LookupFacts.

(** C7. The lookup returns the first player, in list order, whose name
    equals the trimmed input up to letter case, and None exactly when no
    player has such a name; so an input that differs from a stored name in
    case or surrounding whitespace only is found.  [get_player_stats]
    applies this to the list of [get_players], whose names are trimmed. *)
Theorem find_player_first_match {U : UnicodeData} {I : Interpreter} {W : World}
    (name_ : pystr) (players : list PlayerStats) :
  (forall p,
      find_player name_ players = Some p <->
      exists pre post,
        players = pre ++ p :: post /\
        same_name_ci (name p) (strip name_) = true /\
        forall q, In q pre -> same_name_ci (name q) (strip name_) = false)
  /\ (find_player name_ players = None <->
      forall q, In q players -> same_name_ci (name q) (strip name_) = false)
  /\ (forall stored,
        In stored players ->
        same_name_ci (name stored) (strip name_) = true ->
        exists p, find_player name_ players = Some p /\
                  same_name_ci (name p) (strip name_) = true)
  /\ (forall season playoff st st',
        get_players (Args2 season playoff) st = (Ok players, st') ->
        get_player_stats name_ season playoff st
        = (Ok (find_player name_ players), st'))
  /\ (forall soup p,
        parse_soup soup = Ok players -> In p players ->
        same_name_ci (strip (name p)) (strip name_)
        = same_name_ci (name p) (strip name_)).
Proof.
  rewrite find_player_same_name.
  set (f := fun p => same_name_ci (name p) (strip name_)).
  split; [|split; [|split; [|split]]].
  - intros p. split.
    + intros H.
      destruct (find_split f players p H) as (pre & post & E & Hp & Hpre).
      exists pre, post. auto.
    + intros (pre & post & -> & Hp & Hpre). now apply find_first.
  - split.
    + intros H q Hq. exact (find_none f players H q Hq).
    + intros H. destruct (find f players) as [p|] eqn:E; [|reflexivity].
      apply find_some in E as [Hin Hp]. unfold f in Hp.
      pose proof (H p Hin). congruence.
  - intros stored Hin Hs.
    destruct (find f players) as [p|] eqn:E.
    + exists p. split; [reflexivity|]. now apply find_some in E.
    + pose proof (find_none f players E stored Hin) as Hn. unfold f in Hn.
      congruence.
  - intros season playoff st st' H. unfold get_player_stats.
    rewrite H. now rewrite find_player_same_name.
  - intros soup p Hs Hp. now rewrite (parsed_names_stripped soup players p Hs Hp).
Qed.

Lemma find_player_first_match_witness :
  find_player (U := ucd_sample) (lit " IVANOV ") [petrov; ivanov; sidorov; ivanov]
  = Some ivanov
  /\ find_player (U := ucd_sample) (lit "Orlov") [petrov; ivanov; sidorov] = None.
Proof.
  destruct (find_player_first_match (U := ucd_sample) (W := sample_world)
              (lit " IVANOV ") [petrov; ivanov; sidorov; ivanov])
    as (Hsome & _).
  destruct (find_player_first_match (U := ucd_sample) (W := sample_world)
              (lit "Orlov") [petrov; ivanov; sidorov])
    as (_ & Hnone & _).
  split.
  - apply Hsome. exists [petrov], [sidorov; ivanov].
    split; [reflexivity | split; [reflexivity|]].
    intros q [<- | []]. reflexivity.
  - apply Hnone. intros q [<- | [<- | [<- | []]]]; reflexivity.
Defined.

(** ** The season cache *)

Lemma key_eqb_eq (a b : cache_key) : key_eqb a b = true <-> a = b.
Proof.
  destruct a as [s|s x|s x|s|s x|s x], b as [t|t y|t y|t|t y|t y];
    cbn [key_eqb];
    try (split; discriminate);
    rewrite ?andb_true_iff, ?str_eqb_eq, ?Bool.eqb_true_iff;
    (split; [intros H; try destruct H; subst; reflexivity
            | intros [= -> ]; auto; intros; subst; auto]).
Qed.

Lemma cache_get_none_iff (k : cache_key) (entries : list (cache_key * list PlayerStats)) :
  cache_get k entries = None <->
  forall e, In e entries -> key_eqb k (fst e) = false.
Proof.
  unfold cache_get. split.
  - intros H e He. exact (find_none _ _ H e He).
  - intros H. destruct (find _ entries) as [e|] eqn:E; [|reflexivity].
    apply find_some in E as [He Hk]. rewrite (H e He) in Hk. discriminate.
Qed.

Lemma cache_get_some (k : cache_key) (entries : list (cache_key * list PlayerStats))
    (e : cache_key * list PlayerStats) :
  cache_get k entries = Some e -> In e entries /\ fst e = k.
Proof.
  unfold cache_get. intros H. apply find_some in H as [He Hk].
  apply key_eqb_eq in Hk. auto.
Qed.

Lemma removelast_incl {A} (l : list A) (x : A) : In x (removelast l) -> In x l.
Proof.
  induction l as [|a l IH]; simpl; [tauto|].
  destruct l as [|b l]; [intros []|].
  intros [<- | H]; [now left | right; exact (IH H)].
Qed.

Lemma cache_remove_incl (k : cache_key) (entries : list (cache_key * list PlayerStats))
    (e : cache_key * list PlayerStats) :
  In e (cache_remove k entries) -> In e entries /\ fst e <> k.
Proof.
  unfold cache_remove. rewrite filter_In, negb_true_iff.
  intros [He Hk]. split; [exact He|]. intros <-.
  rewrite (proj2 (key_eqb_eq (fst e) (fst e)) eq_refl) in Hk. discriminate.
Qed.

(** An entry of the cache after storing under [k]: the new entry or an old
    one. *)
Lemma cache_store_in (k : cache_key) (v : list PlayerStats)
    (entries : list (cache_key * list PlayerStats)) (e : cache_key * list PlayerStats) :
  In e (cache_store k v entries) -> e = (k, v) \/ In e entries.
Proof.
  unfold cache_store. destruct (cache_get k entries); [now right|].
  intros [<- | H]; [now left|]. right.
  destruct (maxsize <=? List.length entries); [now apply removelast_incl | exact H].
Qed.

Lemma cache_store_get (k : cache_key) (v : list PlayerStats)
    (entries : list (cache_key * list PlayerStats)) :
  cache_get k entries = None ->
  cache_get k (cache_store k v entries) = Some (k, v).
Proof.
  intros H. unfold cache_store. rewrite H. unfold cache_get. simpl.
  now rewrite (proj2 (key_eqb_eq k k) eq_refl).
Qed.

Section CacheFacts.
Context {U : UnicodeData} {I : Interpreter} {W : World}.

(** The wrapped function leaves the cache alone; it issues one request
    when the season resolves, and none when it does not. *)
Lemma uncached_effect (k : cache_key) (st : process) :
  cache (snd (get_players_uncached k st)) = cache st /\
  match _build_url (call_season k) (call_playoff k) with
  | Ok url => requests (snd (get_players_uncached k st)) = url :: requests st
  | Raise e => get_players_uncached k st = (Raise e, st)
  end.
Proof.
  unfold get_players_uncached, fetch_html.
  destruct (_build_url (call_season k) (call_playoff k)) as [url|e]; [|auto].
  destruct (http_get (List.length (requests st)) url); auto.
Qed.

Lemma get_players_hit (c : call) (st : process)
    (e : cache_key * list PlayerStats) :
  cache_get c (cache st) = Some e ->
  get_players c st
  = (Ok (snd e),
     {| cache := e :: cache_remove c (cache st);
        requests := requests st |}).
Proof. intros H. unfold get_players, lru_cache. now rewrite H. Qed.

Lemma get_players_miss (c : call) (st : process) :
  cache_get c (cache st) = None ->
  get_players c st
  = match get_players_uncached c st with
    | (Ok v, st') =>
        (Ok v, {| cache := cache_store c v (cache st);
                  requests := requests st' |})
    | (Raise e, st') => (Raise e, st')
    end.
Proof.
  intros H. unfold get_players, lru_cache. rewrite H.
  pose proof (proj1 (uncached_effect c st)) as Hc.
  destruct (get_players_uncached c st) as [[v|e] st'];
    [|reflexivity].
  simpl in Hc. now rewrite Hc.
Qed.

(** A call keeps the value stored under a key that is in the cache. *)
Lemma get_players_keeps_value (k c : cache_key) (v : list PlayerStats)
    (st : process) :
  holds k v (cache st) -> cache_get k (cache st) <> None ->
  holds k v (cache (snd (get_players c st))).
Proof.
  intros Hv Hk.
  destruct (cache_get c (cache st)) as [e|] eqn:E.
  - rewrite (get_players_hit _ _ _ E). cbn [snd cache].
    intros e' [<- | He']; [apply Hv; exact (proj1 (cache_get_some _ _ _ E))|].
    apply Hv. exact (proj1 (cache_remove_incl _ _ _ He')).
  - rewrite (get_players_miss _ _ E).
    pose proof (proj1 (uncached_effect c st)) as Hc.
    destruct (get_players_uncached c st) as [[w|x] st'];
      cbn [snd cache] in *; [|now rewrite Hc].
    intros e' He' Hfst. apply cache_store_in in He' as [-> | He'].
    + cbn [fst] in Hfst. subst k. congruence.
    + exact (Hv e' He' Hfst).
Qed.

Lemma run_calls_keeps_value (k : cache_key) (v : list PlayerStats)
    (calls : list call) :
  forall st,
    holds k v (cache st) -> stays_cached k calls st ->
    holds k v (cache (run_calls calls st)) /\
    cache_get k (cache (run_calls calls st)) <> None.
Proof.
  induction calls as [|c rest IH]; intros st Hv [Hk Hrest]; cbn [run_calls].
  - auto.
  - apply IH; [|exact Hrest]. now apply get_players_keeps_value.
Qed.

(** A call under another key does not put [k] into the cache. *)
Lemma get_players_other_key (k : cache_key) (c : call)
    (st : process) :
  c <> k ->
  cache_get k (cache st) = None ->
  cache_get k (cache (snd (get_players c st))) = None.
Proof.
  intros Hne Hk. rewrite cache_get_none_iff in Hk. apply cache_get_none_iff.
  assert (Hnew : forall e : cache_key * list PlayerStats,
             fst e = c -> key_eqb k (fst e) = false).
  { intros e He. apply not_true_is_false. rewrite key_eqb_eq. congruence. }
  destruct (cache_get c (cache st)) as [e|] eqn:E.
  - rewrite (get_players_hit _ _ _ E). cbn [snd cache].
    intros e' [<- | He'].
    + apply Hnew. exact (proj2 (cache_get_some _ _ _ E)).
    + apply Hk. exact (proj1 (cache_remove_incl _ _ _ He')).
  - rewrite (get_players_miss _ _ E).
    pose proof (proj1 (uncached_effect c st)) as Hc.
    destruct (get_players_uncached c st) as [[w|x] st'];
      cbn [snd cache] in *; [|now rewrite Hc].
    intros e' He'. apply cache_store_in in He' as [-> | He'].
    + now apply Hnew.
    + now apply Hk.
Qed.

(** A miss whose season resolves issues exactly one request, of its URL. *)
Lemma get_players_miss_requests (c : call) (st : process)
    (url : pystr) :
  cache_get c (cache st) = None ->
  _build_url (call_season c) (call_playoff c) = Ok url ->
  requests (snd (get_players c st)) = url :: requests st.
Proof.
  intros Hk Hurl. rewrite (get_players_miss _ _ Hk).
  pose proof (proj2 (uncached_effect c st)) as Hr.
  rewrite Hurl in Hr.
  now destruct (get_players_uncached c st) as [[w|x] st'].
Qed.

End CacheFacts.

(** C8, as the claim states it, fails: after [get_players('2025', False)]
    has filled the cache, the call [get_players('2025')], which has the
    same season and the same flag, succeeds with the same list and issues
    a second request of the same URL; the cache then holds two entries. *)
Lemma same_key_other_form_fetches_again :
  call_season (Args1 (lit "2025")) = call_season (Args2 (lit "2025") false)
  /\ call_playoff (Args1 (lit "2025")) = call_playoff (Args2 (lit "2025") false)
  /\ get_players (U := ucd_sample) (W := sample_world)
       (Args2 (lit "2025") false) after_failure
     = (Ok [petrov; ivanov; sidorov], after_success)
  /\ fst (get_players (U := ucd_sample) (W := sample_world)
            (Args1 (lit "2025")) after_success)
     = Ok [petrov; ivanov; sidorov]
  /\ requests (snd (get_players (U := ucd_sample) (W := sample_world)
                      (Args1 (lit "2025")) after_success))
     = url_2025_regular :: requests after_success
  /\ map fst (cache (snd (get_players (U := ucd_sample) (W := sample_world)
                            (Args1 (lit "2025")) after_success)))
     = [Args1 (lit "2025"); Args2 (lit "2025") false].
Proof. repeat split; vm_compute; reflexivity. Qed.

(** C8 (amended). The cache goes by the arguments as the call writes them.
    A successful call of [get_players] issues one request when a call
    written with these arguments is not in the cache and none when it is,
    and leaves its entry in the cache; as long as the entry stays there,
    whatever calls come in between, the next call written with the same
    arguments returns the same list and issues no request. *)
Theorem get_players_second_call_cached {U : UnicodeData} {I : Interpreter} {W : World}
    (c : call) (st st1 : process) (players : list PlayerStats) :
  get_players c st = (Ok players, st1) ->
  match cache_get c (cache st) with
  | None => exists url, _build_url (call_season c) (call_playoff c) = Ok url /\
                        requests st1 = url :: requests st
  | Some _ => requests st1 = requests st
  end
  /\ cache_get c (cache st1) <> None
  /\ forall calls,
       stays_cached c calls st1 ->
       exists st3,
         get_players c (run_calls calls st1) = (Ok players, st3)
         /\ requests st3 = requests (run_calls calls st1).
Proof.
  intros H.
  assert (Hv : (holds c players (cache st1)
                /\ cache_get c (cache st1) <> None)
               /\ match cache_get c (cache st) with
                  | None => exists url,
                      _build_url (call_season c) (call_playoff c) = Ok url /\
                      requests st1 = url :: requests st
                  | Some _ => requests st1 = requests st
                  end).
  { destruct (cache_get c (cache st)) as [e|] eqn:E.
    - rewrite (get_players_hit _ _ _ E) in H. injection H as <- <-.
      split; [|reflexivity]. cbn [cache]. split.
      + intros e' [<- | He'] Hfst; [reflexivity|].
        apply cache_remove_incl in He' as [_ Hne]. contradiction.
      + unfold cache_get. cbn [find].
        rewrite (proj2 (key_eqb_eq _ _) (eq_sym (proj2 (cache_get_some _ _ _ E)))).
        discriminate.
    - pose proof (get_players_miss_requests c st) as Hreq.
      rewrite (get_players_miss _ _ E) in H, Hreq.
      pose proof (proj2 (uncached_effect c st)) as Hu.
      destruct (get_players_uncached c st) as [[w|x] st'];
        [|discriminate].
      injection H as <- <-. cbn [snd cache requests] in *. split; [split|].
      + intros e' He' Hfst. apply cache_store_in in He' as [-> | He'];
          [reflexivity|].
        rewrite cache_get_none_iff in E. specialize (E e' He').
        rewrite (proj2 (key_eqb_eq _ _) (eq_sym Hfst)) in E. discriminate.
      + rewrite (cache_store_get _ w _ E). discriminate.
      + destruct (_build_url (call_season c) (call_playoff c)) as [url|x];
          [eauto|]. discriminate. }
  destruct Hv as [[Hv Hin] Hreq]. split; [exact Hreq | split; [exact Hin|]].
  intros calls Hstay.
  destruct (run_calls_keeps_value c players calls st1 Hv Hstay)
    as [Hv2 Hk2].
  destruct (cache_get c (cache (run_calls calls st1)))
    as [e|] eqn:E; [|contradiction].
  rewrite (get_players_hit _ _ _ E).
  apply cache_get_some in E as [He Hfst].
  rewrite (Hv2 e He Hfst). eauto.
Qed.

Lemma get_players_second_call_cached_witness :
  get_players (U := ucd_sample) (W := sample_world)
    (Args2 (lit "2025") false) after_failure
  = (Ok [petrov; ivanov; sidorov], after_success)
  /\ exists st3,
       get_players (U := ucd_sample) (W := sample_world)
         (Args2 (lit "2025") false)
         (run_calls [Args2 (lit "2024/2025") false; Args1 (lit "2025")]
            after_success)
       = (Ok [petrov; ivanov; sidorov], st3)
       /\ requests st3
          = requests (run_calls [Args2 (lit "2024/2025") false;
                                 Args1 (lit "2025")] after_success).
Proof.
  assert (H : get_players (U := ucd_sample) (W := sample_world)
                (Args2 (lit "2025") false) after_failure
              = (Ok [petrov; ivanov; sidorov], after_success)) by reflexivity.
  split; [exact H|].
  apply (proj2 (proj2 (get_players_second_call_cached (U := ucd_sample)
                         (W := sample_world) (Args2 (lit "2025") false)
                         after_failure after_success
                         [petrov; ivanov; sidorov] H))).
  vm_compute. repeat split; discriminate.
Defined.



(** C10, as the claim states it, fails: after a call with [2025] has
    filled the cache, the call with [2024/2025] issues a request of the
    same URL again, and the cache holds two entries. *)
Lemma alternate_spelling_not_shared :
  cache_get (Args2 (lit "2025") false) (cache after_success)
  = Some (Args2 (lit "2025") false, [petrov; ivanov; sidorov])
  /\ requests (snd (get_players (U := ucd_sample) (W := sample_world)
                      (Args2 (lit "2024/2025") false) after_success))
     = url_2025_regular :: requests after_success
  /\ map fst (cache (snd (get_players (U := ucd_sample) (W := sample_world)
                            (Args2 (lit "2024/2025") false) after_success)))
     = [Args2 (lit "2024/2025") false; Args2 (lit "2025") false].
Proof. repeat split; vm_compute; reflexivity. Qed.

(** C10 (amended). The cache is keyed by the arguments as they were
    passed, the season string unresolved: a call puts nothing into the
    cache under any other key, so a call that is not itself in the cache
    issues a request, also when it follows a call with another spelling of
    the same season; [2025] and [2024/2025] resolve to one URL and are two
    keys. *)
Theorem cache_keyed_by_raw_season {U : UnicodeData} {I : Interpreter} {W : World}
    (c other : call) (st : process) (url : pystr) :
  c <> other ->
  cache_get other (cache st) = None ->
  _build_url (call_season other) (call_playoff other) = Ok url ->
  let st1 := snd (get_players c st) in
  cache_get other (cache st1) = None
  /\ requests (snd (get_players other st1)) = url :: requests st1
  /\ (forall playoff,
        _build_url (lit "2024/2025") playoff = _build_url (lit "2025") playoff
        /\ Args2 (lit "2024/2025") playoff <> Args2 (lit "2025") playoff).
Proof.
  intros Hne Hk Hurl st1.
  assert (E1 : cache_get other (cache st1) = None).
  { apply get_players_other_key; [exact Hne | exact Hk]. }
  split; [exact E1|]. split.
  - exact (get_players_miss_requests other st1 url E1 Hurl).
  - intros playoff. split; [|discriminate].
    unfold _build_url.
    rewrite (season_to_year_ascii (lit "2024/2025")) by reflexivity.
    rewrite (season_to_year_ascii (lit "2025")) by reflexivity.
    reflexivity.
Qed.

Lemma cache_keyed_by_raw_season_witness :
  cache_get (Args2 (lit "2024/2025") false) (cache after_success) = None
  /\ requests (snd (get_players (U := ucd_sample) (W := sample_world)
                      (Args2 (lit "2024/2025") false) after_success))
     = url_2025_regular :: requests after_success.
Proof.
  destruct (cache_keyed_by_raw_season (U := ucd_sample) (W := sample_world)
              (Args2 (lit "2025") false) (Args2 (lit "2024/2025") false)
              after_failure url_2025_regular)
    as (H1 & H2 & _); [discriminate | reflexivity | reflexivity |].
  split; [exact H1 | exact H2].
Defined.

(** * Further properties of the parser module and of the handlers *)

(** ** Printing and reading integers *)

Section PrintFacts.
Context {U : UnicodeData} {I : Interpreter}.

Lemma decimal_value_code (c : N) :
  (48 <= c <= 57)%N -> decimal_value c = Some (c - 48)%N.
Proof.
  intros Hc. rewrite ascii_decimal by lia. unfold ascii_digit.
  replace ((48 <=? c) && (c <=? 57))%N with true; [reflexivity|].
  symmetry. apply andb_true_iff. split; apply N.leb_le; lia.
Qed.

Ltac read_digit c :=
  cbn [uint_str int_digits Pos.of_uint_acc Pos.of_uint];
  rewrite (decimal_value_code c) by lia.

Lemma int_digits_uint_acc (d : Decimal.uint) :
  forall p, int_digits (uint_str d) (Npos p) true
            = Some (Npos (Pos.of_uint_acc d p)).
Proof.
  induction d; intros p; [reflexivity | | | | | | | | | |].
  - read_digit 48%N. rewrite <- IHd. f_equal; lia.
  - read_digit 49%N. rewrite <- IHd. f_equal; lia.
  - read_digit 50%N. rewrite <- IHd. f_equal; lia.
  - read_digit 51%N. rewrite <- IHd. f_equal; lia.
  - read_digit 52%N. rewrite <- IHd. f_equal; lia.
  - read_digit 53%N. rewrite <- IHd. f_equal; lia.
  - read_digit 54%N. rewrite <- IHd. f_equal; lia.
  - read_digit 55%N. rewrite <- IHd. f_equal; lia.
  - read_digit 56%N. rewrite <- IHd. f_equal; lia.
  - read_digit 57%N. rewrite <- IHd. f_equal; lia.
Qed.

Lemma int_digits_uint (d : Decimal.uint) :
  forall prev, d <> Decimal.Nil \/ prev = true ->
               int_digits (uint_str d) 0%N prev = Some (Pos.of_uint d).
Proof.
  induction d; intros prev Hne.
  - destruct Hne as [Hne | ->]; [congruence | reflexivity].
  - read_digit 48%N. apply IHd. now right.
  - read_digit 49%N. apply int_digits_uint_acc.
  - read_digit 50%N. apply int_digits_uint_acc.
  - read_digit 51%N. apply int_digits_uint_acc.
  - read_digit 52%N. apply int_digits_uint_acc.
  - read_digit 53%N. apply int_digits_uint_acc.
  - read_digit 54%N. apply int_digits_uint_acc.
  - read_digit 55%N. apply int_digits_uint_acc.
  - read_digit 56%N. apply int_digits_uint_acc.
  - read_digit 57%N. apply int_digits_uint_acc.
Qed.

(** The printed digits are ASCII digits. *)
Lemma uint_str_digits (d : Decimal.uint) (c : N) :
  In c (uint_str d) -> (48 <= c <= 57)%N.
Proof.
  induction d; simpl; try tauto; intros [<- | H]; try lia; auto.
Qed.

Lemma str_of_int_chars (z : Z) (c : N) :
  In c (str_of_int z) -> c = minus_sign \/ (48 <= c <= 57)%N.
Proof.
  unfold str_of_int. destruct (Z.to_int z).
  - intros H. right. exact (uint_str_digits _ _ H).
  - intros [<- | H]; [now left | right; exact (uint_str_digits _ _ H)].
Qed.

Lemma str_of_int_no_slash (z : Z) : contains_char slash (str_of_int z) = false.
Proof.
  unfold contains_char. apply not_true_is_false. intros H.
  apply existsb_exists in H as (c & Hc & E). apply N.eqb_eq in E. subst c.
  apply str_of_int_chars in Hc. unfold slash, minus_sign in Hc. lia.
Qed.

Lemma str_of_int_no_space (z : Z) (c : N) :
  In c (str_of_int z) -> int_space c = false.
Proof.
  intros H. apply str_of_int_chars in H. unfold int_space, minus_sign in *.
  replace (c <? 127)%N with true by (symmetry; apply N.ltb_lt; lia).
  apply not_true_is_false. intros E.
  rewrite orb_true_iff, andb_true_iff, !N.leb_le, N.eqb_eq in E. lia.
Qed.

Lemma uint_str_head (d : Decimal.uint) (c : N) (r : pystr) :
  uint_str d = c :: r ->
  N.eqb c minus_sign = false /\ N.eqb c plus_sign = false.
Proof.
  intros E. assert (H : In c (uint_str d)) by (rewrite E; now left).
  apply uint_str_digits in H. unfold minus_sign, plus_sign.
  split; apply N.eqb_neq; lia.
Qed.

(** The printed integer is a literal of the integer. *)
Lemma int_str_of_int (z : Z) : int_literal (str_of_int z) = Some z.
Proof.
  unfold int_literal. rewrite (strip_with_fixed _ _ (str_of_int_no_space z)).
  unfold str_of_int. destruct z as [|p|p]; cbn [Z.to_int].
  - change (uint_str (Decimal.D0 Decimal.Nil)) with [48%N].
    change (N.eqb 48 minus_sign) with false.
    change (N.eqb 48 plus_sign) with false.
    cbn [int_digits]. now rewrite (decimal_value_code 48%N) by lia.
  - destruct (uint_str (Pos.to_uint p)) as [|c r] eqn:E.
    + destruct (Pos.to_uint p) eqn:Ep; try discriminate.
      now apply DecimalPos.Unsigned.to_uint_nonnil in Ep.
    + destruct (uint_str_head _ _ _ E) as [-> ->]. rewrite <- E.
      rewrite int_digits_uint by (left; apply DecimalPos.Unsigned.to_uint_nonnil).
      now rewrite DecimalPos.Unsigned.of_to.
  - unfold minus_sign at 1. rewrite N.eqb_refl.
    rewrite int_digits_uint by (left; apply DecimalPos.Unsigned.to_uint_nonnil).
    now rewrite DecimalPos.Unsigned.of_to.
Qed.

Lemma str_of_int_inj (a b : Z) : str_of_int a = str_of_int b -> a = b.
Proof.
  intros E. pose proof (int_str_of_int a) as Ha. rewrite E, int_str_of_int in Ha.
  congruence.
Qed.

(** A year of the calendar prints in five characters at most. *)
Lemma year_str_length (z : Z) :
  (0 <= z <= 10000)%Z -> List.length (str_of_int z) <= 5.
Proof.
  intros Hz.
  assert (H : forallb (fun n => List.length (str_of_int (Z.of_nat n)) <=? 5)
                (seq 0 (Z.to_nat 10001)) = true) by (vm_compute; reflexivity).
  rewrite forallb_forall in H. specialize (H (Z.to_nat z)).
  rewrite Z2Nat.id in H by lia. apply Nat.leb_le, H, in_seq. lia.
Qed.

(** [int(str(z)) == z], for a printed integer within the limit. *)
Lemma int_of_str_of_int (z : Z) :
  List.length (str_of_int z) <= 640 -> int (str_of_int z) = Some z.
Proof.
  intros H. rewrite (int_within_limit _ (short_within_limit _ H)).
  apply int_str_of_int.
Qed.

Lemma season_to_year_pair (a b : Z) :
  List.length (str_of_int b) <= 640 ->
  _season_to_year (str_of_int a ++ lit "/" ++ str_of_int b) = Ok b.
Proof.
  intros Hb.
  change (lit "/" ++ str_of_int b) with (slash :: str_of_int b).
  unfold _season_to_year. rewrite contains_char_app_sep.
  rewrite (split_app_sep slash _ _ (str_of_int_no_slash a)).
  rewrite (split_no_sep slash _ (str_of_int_no_slash b)).
  unfold item, rbind, py_int. cbn [nth_error]. now rewrite int_of_str_of_int.
Qed.

End PrintFacts.

(** ** The URL *)

(** X1. With no season in the request and none in the environment,
    [api_search] uses the season of the current date; for every year of the
    calendar ([date.today().year], from 1 to 9999) that identifier
    resolves, to the year in which the season ends, so the request goes to
    that year's page and never fails on the season format. *)
Theorem default_season_resolves {U : UnicodeData} {I : Interpreter}
    (year month : Z) (playoff : bool) :
  (1 <= year <= 9999)%Z ->
  let end_year := if (7 <=? month)%Z then (year + 1)%Z else year in
  _season_to_year (default_season year month) = Ok end_year
  /\ _build_url (default_season year month) playoff
     = Ok (lit "https://allhockey.ru/stat/khl/" ++ str_of_int end_year
             ++ lit "/" ++ str_of_int (if playoff then 315 else 312)%Z
             ++ lit "/player").
Proof.
  intros Hy. cbv zeta. unfold _build_url, default_season.
  rewrite season_to_year_pair; [split; reflexivity|].
  pose proof (year_str_length (if (7 <=? month)%Z then (year + 1)%Z else year)).
  destruct (7 <=? month)%Z; lia.
Qed.

Lemma default_season_resolves_witness :
  default_season 2026 11 = lit "2026/2027"
  /\ _season_to_year (U := ucd_sample) (default_season 2026 11) = Ok 2027%Z
  /\ _build_url (U := ucd_sample) (default_season 2026 11) false
     = Ok (lit "https://allhockey.ru/stat/khl/2027/312/player").
Proof.
  split; [reflexivity|].
  apply (default_season_resolves (U := ucd_sample) 2026 11 false). lia.
Defined.

(** X2. Two seasons that resolve get the same URL exactly when they resolve
    to the same year and the tournament flag is the same: no two seasons or
    tournaments share a page, and two spellings of one season do. *)
Theorem build_url_same_page {U : UnicodeData} {I : Interpreter} (s1 s2 : pystr) (p1 p2 : bool)
    (y1 y2 : Z) :
  _season_to_year s1 = Ok y1 -> _season_to_year s2 = Ok y2 ->
  (_build_url s1 p1 = _build_url s2 p2 <-> y1 = y2 /\ p1 = p2).
Proof.
  intros H1 H2. unfold _build_url. rewrite H1, H2. cbn [rbind]. split.
  - intros [= E]. change 47%N with slash in E.
    apply (f_equal (split slash)) in E.
    rewrite !(split_app_sep slash _ _ (str_of_int_no_slash _)) in E.
    injection E as Ey Ec. apply str_of_int_inj in Ey. split; [exact Ey|].
    change (lit "/player") with (slash :: lit "player") in Ec.
    rewrite !(split_app_sep slash _ _ (str_of_int_no_slash _)) in Ec.
    injection Ec as Ec. apply str_of_int_inj in Ec.
    destruct p1, p2; (reflexivity || discriminate).
  - intros [-> ->]. reflexivity.
Qed.

Lemma build_url_same_page_witness :
  _build_url (U := ucd_sample) (lit "2025") false
  = _build_url (U := ucd_sample) (lit "2024/2025") false
  /\ _build_url (U := ucd_sample) (lit "2025") false
     = Ok url_2025_regular.
Proof.
  split; [|reflexivity].
  apply (build_url_same_page (U := ucd_sample)
           (lit "2025") (lit "2024/2025") false false 2025%Z 2025%Z);
    [reflexivity | reflexivity | split; reflexivity].
Defined.

(** ** Invariants of the cache *)

Lemma removelast_length {A} (l : list A) :
  List.length (removelast l) = List.length l - 1.
Proof.
  induction l as [|a l IH]; [reflexivity|].
  destruct l as [|b l]; [reflexivity|].
  change (removelast (a :: b :: l)) with (a :: removelast (b :: l)).
  cbn [List.length] in *. lia.
Qed.

Lemma removelast_keys_nodup {A B} (l : list (A * B)) :
  NoDup (map fst l) -> NoDup (map fst (removelast l)).
Proof.
  induction l as [|a l IH]; [auto|].
  destruct l as [|b l]; [intros _; constructor|].
  change (removelast (a :: b :: l)) with (a :: removelast (b :: l)).
  change (NoDup (fst a :: map fst (b :: l)) ->
          NoDup (fst a :: map fst (removelast (b :: l)))).
  intros H. apply NoDup_cons_iff in H as [Hx Hxs].
  constructor; [|exact (IH Hxs)].
  intros Hin. apply Hx. apply in_map_iff in Hin as (e & He & Hin).
  apply in_map_iff. exists e. split; [exact He|].
  now apply removelast_incl.
Qed.

Lemma cache_remove_keys_nodup (k : cache_key)
    (l : list (cache_key * list PlayerStats)) :
  NoDup (map fst l) -> NoDup (map fst (cache_remove k l)).
Proof.
  unfold cache_remove. induction l as [|a l IH]; [auto|].
  cbn [map filter]. intros H. inversion H as [|x xs Hx Hxs]; subst.
  destruct (negb (key_eqb k (fst a))); [|exact (IH Hxs)].
  cbn [map]. constructor; [|exact (IH Hxs)].
  intros Hin. apply Hx. apply in_map_iff in Hin as (e & He & Hin).
  apply in_map_iff. exists e. split; [exact He|].
  apply filter_In in Hin. tauto.
Qed.

Lemma cache_remove_length (k : cache_key)
    (l : list (cache_key * list PlayerStats)) (e : cache_key * list PlayerStats) :
  cache_get k l = Some e -> S (List.length (cache_remove k l)) <= List.length l.
Proof.
  unfold cache_get, cache_remove. induction l as [|a l IH]; [discriminate|].
  cbn [find filter List.length]. destruct (key_eqb k (fst a)).
  - intros _. cbn [negb]. pose proof (filter_length_le
      (fun e0 => negb (key_eqb k (fst e0))) l). lia.
  - intros H. cbn [negb List.length]. specialize (IH H). lia.
Qed.

(** The keys of the cache resolve: each was stored after a request. *)
Definition keys_resolve {U : UnicodeData} {I : Interpreter}
    (entries : list (cache_key * list PlayerStats)) : Prop :=
  forall e, In e entries ->
            exists url,
              _build_url (call_season (fst e)) (call_playoff (fst e)) = Ok url.

Definition cache_ok {U : UnicodeData} {I : Interpreter} (st : process) : Prop :=
  List.length (cache st) <= maxsize
  /\ NoDup (map fst (cache st))
  /\ keys_resolve (cache st).

Section InvariantFacts.
Context {U : UnicodeData} {I : Interpreter} {W : World}.

Lemma get_players_cache_ok (c : call) (st : process) :
  cache_ok st -> cache_ok (snd (get_players c st)).
Proof.
  intros (Hlen & Hnd & Hres).
  destruct (cache_get c (cache st)) as [e|] eqn:E.
  - rewrite (get_players_hit _ _ _ E). cbn [snd]. unfold cache_ok. cbn [cache].
    destruct (cache_get_some _ _ _ E) as [He Hk]. split; [|split].
    + pose proof (cache_remove_length _ _ _ E). cbn [List.length]. lia.
    + cbn [map]. constructor; [|now apply cache_remove_keys_nodup].
      intros Hin. apply in_map_iff in Hin as (e' & He' & Hin).
      apply cache_remove_incl in Hin as [_ Hne]. congruence.
    + intros e' [<- | He']; [now apply Hres|].
      apply Hres. exact (proj1 (cache_remove_incl _ _ _ He')).
  - rewrite (get_players_miss _ _ E).
    pose proof (uncached_effect c st) as [Hc Hu].
    destruct (get_players_uncached c st) as [[v|x] st'] eqn:Eu;
      cbn [snd] in *.
    2:{ unfold cache_ok. rewrite Hc. auto. }
    unfold cache_ok. cbn [cache]. unfold cache_store. rewrite E.
    split; [|split].
    + cbn [List.length]. destruct (Nat.leb_spec maxsize (List.length (cache st))).
      * rewrite removelast_length. unfold maxsize in *. lia.
      * lia.
    + cbn [map fst]. rewrite cache_get_none_iff in E. constructor.
      * intros Hin. apply in_map_iff in Hin as (e' & He' & Hin).
        assert (Hin' : In e' (cache st)).
        { destruct (maxsize <=? List.length (cache st));
            [now apply removelast_incl | exact Hin]. }
        specialize (E e' Hin'). rewrite He' in E.
        rewrite (proj2 (key_eqb_eq _ _) eq_refl) in E. discriminate.
      * destruct (maxsize <=? List.length (cache st));
          [now apply removelast_keys_nodup | exact Hnd].
    + intros e' [<- | He'].
      * cbn [fst].
        destruct (_build_url (call_season c) (call_playoff c)) as [url|x];
          [eauto|].
        discriminate.
      * apply Hres.
        destruct (maxsize <=? List.length (cache st));
          [now apply removelast_incl | exact He'].
Qed.

(** Every operation leaves the state alone or is one call of
    [get_players]. *)
Lemma step_is_call (op : operation) (st : process) :
  step op st = st \/
  exists c, step op st = snd (get_players c st).
Proof.
  destruct op as [c | n s p | q sa pa env | pl sa pa]; cbn [step].
  - right. eauto.
  - right. exists (Args2 s p). unfold get_player_stats.
    now destruct (get_players (Args2 s p) st) as [[v|x] st'].
  - unfold api_search. destruct (is_empty (get_or q [])); [now left|].
    right.
    match goal with
    | |- context [get_players ?c st] =>
        exists c; now destruct (get_players c st) as [[v|x] st']
    end.
  - unfold api_stats.
    destruct (is_empty (strip (get_or pl [])) || is_empty (strip (get_or sa [])));
      [now left|].
    right. unfold get_player_stats.
    match goal with
    | |- context [get_players ?c st] =>
        exists c; destruct (get_players c st) as [[v|x] st'];
        [now destruct (find_player _ v) | reflexivity]
    end.
Qed.

Lemma run_cache_ok (ops : list operation) :
  forall st, cache_ok st -> cache_ok (run ops st).
Proof.
  induction ops as [|op rest IH]; intros st Hok; [exact Hok|].
  cbn [run]. apply IH.
  destruct (step_is_call op st) as [-> | (c & ->)];
    [exact Hok | now apply get_players_cache_ok].
Qed.

Lemma fresh_cache_ok : cache_ok fresh_process.
Proof.
  unfold cache_ok, fresh_process. cbn [cache]. split; [|split].
  - unfold maxsize. cbn [List.length]. lia.
  - constructor.
  - intros e [].
Qed.

End InvariantFacts.

Lemma cache_keys_resolving_aux {U : UnicodeData} {I : Interpreter} {W : World}
    (ops : list operation) :
  NoDup (map fst (cache (run ops fresh_process)))
  /\ forall c,
       cache_get c (cache (run ops fresh_process)) <> None ->
       exists url, _build_url (call_season c) (call_playoff c) = Ok url.
Proof.
  destruct (run_cache_ok ops fresh_process fresh_cache_ok) as (_ & Hnd & Hres).
  split; [exact Hnd|]. intros c H.
  destruct (cache_get c (cache (run ops fresh_process)))
    as [e|] eqn:E; [|contradiction].
  apply cache_get_some in E as [He Hk].
  destruct (Hres e He) as [url Hurl]. rewrite Hk in Hurl. eauto.
Qed.

(** X3. Whatever calls of [get_players] and [get_player_stats] and
    requests to the two handlers a process has served since its start, its
    cache holds at most ten season lists. *)
Theorem cache_never_exceeds_maxsize {U : UnicodeData} {I : Interpreter} {W : World}
    (ops : list operation) :
  List.length (cache (run ops fresh_process)) <= 10.
Proof. exact (proj1 (run_cache_ok ops fresh_process fresh_cache_ok)). Qed.

(** X4. In every state a process reaches, no key occurs twice in the
    cache, and every key in it is a call whose season resolves to a URL. *)
Theorem cache_keys_distinct_and_resolving {U : UnicodeData} {I : Interpreter} {W : World}
    (ops : list operation) :
  NoDup (map fst (cache (run ops fresh_process)))
  /\ forall c,
       cache_get c (cache (run ops fresh_process)) <> None ->
       exists url, _build_url (call_season c) (call_playoff c) = Ok url.
Proof. exact (cache_keys_resolving_aux ops). Qed.

(** X5. In every state a process reaches, a call with a season identifier
    that does not resolve raises that [ValueError] and changes nothing: no
    request is issued and the cache is as before. *)
Theorem invalid_season_raises_without_request {U : UnicodeData} {I : Interpreter} {W : World}
    (ops : list operation) (c : call) (e : exn) :
  _season_to_year (call_season c) = Raise e ->
  get_players c (run ops fresh_process)
  = (Raise e, run ops fresh_process)
  /\ is_ValueError e = true.
Proof.
  intros Hs. set (st := run ops fresh_process).
  assert (Hurl : _build_url (call_season c) (call_playoff c) = Raise e)
    by (unfold _build_url; now rewrite Hs).
  split.
  - destruct (cache_get c (cache st)) as [x|] eqn:E.
    + destruct (proj2 (cache_keys_resolving_aux ops) c) as [url Hu].
      * fold st. now rewrite E.
      * congruence.
    + rewrite (get_players_miss _ _ E).
      pose proof (proj2 (uncached_effect c st)) as Hu.
      rewrite Hurl in Hu. now rewrite Hu.
  - unfold _season_to_year, rbind, item, py_int in Hs.
    destruct (contains_char slash (call_season c)).
    + destruct (nth_error (split slash (call_season c)) 1) as [p|];
        [destruct (int p) | ]; now inversion Hs.
    + destruct (int (call_season c)); now inversion Hs.
Qed.

Lemma invalid_season_raises_without_request_witness :
  get_players (U := ucd_sample) (W := sample_world) (Args2 (lit "bad") true)
    (run (U := ucd_sample) (W := sample_world)
       [GetPlayers (Args2 (lit "2025") false); GetPlayers (Args1 (lit "2025"))]
       fresh_process)
  = (Raise (ValueError InvalidLiteral),
     run (U := ucd_sample) (W := sample_world)
       [GetPlayers (Args2 (lit "2025") false); GetPlayers (Args1 (lit "2025"))]
       fresh_process).
Proof.
  apply (invalid_season_raises_without_request (U := ucd_sample)
           (W := sample_world)
           [GetPlayers (Args2 (lit "2025") false); GetPlayers (Args1 (lit "2025"))]
           (Args2 (lit "bad") true) (ValueError InvalidLiteral)).
  reflexivity.
Defined.

(** ** Least recently used: how long an entry stays *)

Lemma cache_position_get (k : cache_key)
    (l : list (cache_key * list PlayerStats)) (i : nat) :
  cache_position k l = Some i -> cache_get k l <> None /\ i < List.length l.
Proof.
  unfold cache_get. revert i.
  induction l as [|a l IH]; intros i; cbn [cache_position find List.length];
    [discriminate|].
  destruct (key_eqb k (fst a)); [intros [= <-]; split; [discriminate | lia]|].
  destruct (cache_position k l) as [j|]; [|discriminate].
  intros [= <-]. destruct (IH j eq_refl). split; [assumption | lia].
Qed.

Lemma cache_position_remove (k c : cache_key)
    (l : list (cache_key * list PlayerStats)) :
  forall i, cache_position k l = Some i -> c <> k ->
            exists j, cache_position k (cache_remove c l) = Some j /\ j <= i.
Proof.
  unfold cache_remove.
  induction l as [|a l IH]; intros i; cbn [cache_position filter];
    [discriminate|].
  destruct (key_eqb k (fst a)) eqn:Ek.
  - intros [= <-] Hne. apply key_eqb_eq in Ek.
    replace (key_eqb c (fst a)) with false.
    + cbn [negb cache_position].
      rewrite (proj2 (key_eqb_eq _ _) Ek). exists 0. auto.
    + symmetry. apply not_true_is_false. rewrite key_eqb_eq. congruence.
  - destruct (cache_position k l) as [j|]; [|discriminate].
    intros [= <-] Hne. destruct (IH j eq_refl Hne) as (j' & Hj' & Hle).
    destruct (negb (key_eqb c (fst a))).
    + cbn [cache_position]. rewrite Ek, Hj'. exists (S j'). split; [reflexivity | lia].
    + exists j'. split; [exact Hj' | lia].
Qed.

Lemma cache_position_removelast (k : cache_key)
    (l : list (cache_key * list PlayerStats)) :
  forall i, cache_position k l = Some i -> S i < List.length l ->
            cache_position k (removelast l) = Some i.
Proof.
  induction l as [|a l IH]; intros i; [discriminate|].
  destruct l as [|b l].
  - cbn [List.length]. lia.
  - change (removelast (a :: b :: l)) with (a :: removelast (b :: l)).
    cbn [cache_position] in *. destruct (key_eqb k (fst a)); [auto|].
    destruct (if key_eqb k (fst b) then Some 0
              else option_map S (cache_position k l)) as [j|] eqn:Ej;
      [|discriminate].
    intros [= <-] Hlen. cbn [List.length] in Hlen.
    rewrite (IH j eq_refl) by (cbn [List.length]; lia). reflexivity.
Qed.

Section LruFacts.
Context {U : UnicodeData} {I : Interpreter} {W : World}.

(** A call moves the entry of another key back by one place at most. *)
Lemma get_players_position (k : cache_key) (c : call)
    (st : process) (i : nat) :
  cache_position k (cache st) = Some i -> S i < maxsize ->
  exists j, cache_position k (cache (snd (get_players c st))) = Some j
            /\ j <= S i.
Proof.
  intros Hpos Hi.
  destruct (cache_get c (cache st)) as [e|] eqn:E.
  - rewrite (get_players_hit _ _ _ E). cbn [snd cache cache_position].
    destruct (key_eqb k (fst e)) eqn:Ek; [exists 0; split; [reflexivity | lia]|].
    destruct (cache_position_remove k c (cache st) i Hpos)
      as (j & -> & Hj).
    + intros Hck. apply not_true_iff_false in Ek. apply Ek.
      apply key_eqb_eq. rewrite (proj2 (cache_get_some _ _ _ E)). now symmetry.
    + exists (S j). split; [reflexivity | lia].
  - rewrite (get_players_miss _ _ E).
    pose proof (proj1 (uncached_effect c st)) as Hc.
    destruct (get_players_uncached c st) as [[v|x] st'];
      cbn [snd] in *.
    2:{ rewrite Hc. exists i. split; [exact Hpos | lia]. }
    cbn [cache]. unfold cache_store. rewrite E. cbn [cache_position fst].
    assert (Ek : key_eqb k c = false).
    { apply not_true_is_false. rewrite key_eqb_eq. intros Hck. subst k.
      apply cache_position_get in Hpos as [Hget _]. congruence. }
    rewrite Ek. exists (S i). split; [|lia].
    destruct (Nat.leb_spec maxsize (List.length (cache st))).
    + rewrite (cache_position_removelast k (cache st) i Hpos) by lia.
      reflexivity.
    + now rewrite Hpos.
Qed.

Lemma run_keeps_entry (k : cache_key) (v : list PlayerStats)
    (ops : list operation) :
  forall st i,
    cache_position k (cache st) = Some i -> i + List.length ops < maxsize ->
    holds k v (cache st) ->
    cache_get k (cache (run ops st)) <> None /\ holds k v (cache (run ops st)).
Proof.
  induction ops as [|op rest IH]; intros st i Hpos Hlen Hv; cbn [run].
  - split; [exact (proj1 (cache_position_get _ _ _ Hpos)) | exact Hv].
  - cbn [List.length] in Hlen.
    destruct (step_is_call op st) as [-> | (c & ->)].
    + apply (IH st i Hpos); [lia | exact Hv].
    + destruct (get_players_position k c st i Hpos) as (j & Hj & Hle); [lia|].
      apply (IH _ j Hj); [lia|].
      apply (get_players_keeps_value k c v st Hv).
      exact (proj1 (cache_position_get _ _ _ Hpos)).
Qed.

(** After a call that returned, the key is the most recently used one and
    its entry holds the list returned. *)
Lemma get_players_ok_front (c : call) (st st1 : process)
    (players : list PlayerStats) :
  get_players c st = (Ok players, st1) ->
  cache_position c (cache st1) = Some 0
  /\ holds c players (cache st1).
Proof.
  intros H.
  destruct (cache_get c (cache st)) as [e|] eqn:E.
  - rewrite (get_players_hit _ _ _ E) in H. injection H as <- <-.
    destruct (cache_get_some _ _ _ E) as [He Hk]. cbn [cache cache_position].
    rewrite (proj2 (key_eqb_eq _ _) (eq_sym Hk)). split; [reflexivity|].
    intros e' [<- | He'] Hfst; [reflexivity|].
    apply cache_remove_incl in He' as [_ Hne]. contradiction.
  - rewrite (get_players_miss _ _ E) in H.
    destruct (get_players_uncached c st) as [[w|x] st'];
      [|discriminate].
    injection H as <- <-. cbn [cache]. unfold cache_store. rewrite E.
    cbn [cache_position fst].
    rewrite (proj2 (key_eqb_eq _ _) eq_refl). split; [reflexivity|].
    intros e' [<- | He'] Hfst; [reflexivity|].
    rewrite cache_get_none_iff in E.
    assert (Hin : In e' (cache st)).
    { destruct (maxsize <=? List.length (cache st));
        [now apply removelast_incl | exact He']. }
    specialize (E e' Hin).
    rewrite (proj2 (key_eqb_eq _ _) (eq_sym Hfst)) in E. discriminate.
Qed.

End LruFacts.

(** X6. A list that [get_players] has returned is served from the cache,
    with no request, by the next call written with the same arguments in
    the same form, whatever up to nine operations (calls in any form or
    handler requests, for any seasons) come in between: an entry is
    evicted only after ten more recent ones. *)
Theorem cached_list_survives_nine_operations {U : UnicodeData} {I : Interpreter} {W : World}
    (c : call) (st st1 : process)
    (players : list PlayerStats) (ops : list operation) :
  get_players c st = (Ok players, st1) ->
  List.length ops <= 9 ->
  get_players c (run ops st1)
  = (Ok players,
     {| cache := (c, players)
                 :: cache_remove c (cache (run ops st1));
        requests := requests (run ops st1) |}).
Proof.
  intros H Hlen. destruct (get_players_ok_front _ _ _ _ H) as [Hpos Hv].
  destruct (run_keeps_entry c players ops st1 0 Hpos) as [Hk Hv2];
    [unfold maxsize; lia | exact Hv |].
  destruct (cache_get c (cache (run ops st1))) as [e|] eqn:E;
    [|contradiction].
  rewrite (get_players_hit _ _ _ E).
  destruct (cache_get_some _ _ _ E) as [He Hfst].
  pose proof (Hv2 e He Hfst) as Hsnd.
  destruct e as [k v]. cbn [fst snd] in *. now subst.
Qed.

Lemma cached_list_survives_nine_operations_witness :
  fst (get_players (U := ucd_sample) (W := sample_world)
         (Args2 (lit "2025") false)
         (run (U := ucd_sample) (W := sample_world)
            [GetPlayers (Args2 (lit "2024/2025") false);
             GetPlayers (Args1 (lit "2025"));
             GetPlayers (KwBoth (lit "2025") false);
             ApiSearch (Some (lit "iv")) (Some (lit "2024")) None
               {| DEFAULT_SEASON := None; today_year := 2025; today_month := 3 |};
             ApiStats (Some (lit "Petrov")) (Some (lit "2023/2024")) (Some (lit "yes"))]
            after_success))
  = Ok [petrov; ivanov; sidorov].
Proof.
  rewrite (cached_list_survives_nine_operations (U := ucd_sample)
             (W := sample_world) (Args2 (lit "2025") false) after_failure
             after_success
             [petrov; ivanov; sidorov]); [reflexivity | reflexivity |].
  cbn [List.length]. lia.
Defined.

(** ** What the parser returns *)

Section ParsedFacts.
Context {U : UnicodeData} {I : Interpreter}.

Lemma decimal_fold_nonneg (s : pystr) :
  forall acc, (0 <= acc)%Z ->
              (0 <= fold_left (fun a c => (10 * a + decimal_digit c)%Z) s acc)%Z.
Proof.
  induction s as [|c r IH]; intros acc Hacc; cbn [fold_left]; [exact Hacc|].
  apply IH. unfold decimal_digit. destruct (decimal_value c); lia.
Qed.

Lemma count_default_nonneg (c : pystr) : (0 <= or_zero (spec_decimal c))%Z.
Proof.
  destruct (spec_decimal c) as [v|] eqn:E; cbn [or_zero]; [|lia].
  apply spec_decimal_some in E as (_ & _ & ->). now apply decimal_fold_nonneg.
Qed.

Lemma cell_stripped (tr : node) (i : nat) :
  i < List.length (cell_texts tr) ->
  strip (nth i (cell_texts tr) []) = nth i (cell_texts tr) [].
Proof.
  intros Hi. destruct (cell_texts_stripped tr (nth i (cell_texts tr) []))
    as [raw ->]; [now apply nth_In|].
  apply strip_with_idem.
Qed.

(** Every record of the list is the record of a row of twelve cells. *)
Lemma parse_rows_sound (rows : list node) (p : PlayerStats) :
  In p (parse_rows rows []) ->
  exists tr, In tr rows /\ has_12_cells tr = true /\
             p = spec_record (cell_texts tr).
Proof.
  intros H. apply parse_rows_in in H as (tr & Htr & H12 & Hrow).
  exists tr. split; [exact Htr | split; [exact H12|]].
  apply row_to_stats_ok; [|exact Hrow].
  intros c Hc pre. apply cell_texts_stripped in Hc as [raw ->].
  apply strip_no_trailing_newline.
Qed.

Lemma row_output_length (tr : node) : List.length (row_output tr) <= 1.
Proof.
  unfold row_output. destruct (has_12_cells tr); [|cbn; lia].
  destruct (row_to_stats (cell_texts tr)); cbn; lia.
Qed.

Lemma parse_rows_length (rows : list node) :
  List.length (parse_rows rows []) <= List.length rows.
Proof.
  rewrite parse_rows_flat_map. cbn [app].
  induction rows as [|tr rest IH]; cbn [flat_map List.length]; [lia|].
  rewrite length_app. pose proof (row_output_length tr). lia.
Qed.

Lemma strip_all_space (s : pystr) :
  forallb isspace_cp s = true -> strip s = [].
Proof.
  intros H. unfold strip, strip_with, rstrip_with.
  assert (E : lstrip_with isspace_cp s = []).
  { induction s as [|c r IH]; [reflexivity|].
    cbn [forallb] in H. apply andb_true_iff in H as [Hc Hr].
    cbn [lstrip_with]. rewrite Hc. exact (IH Hr). }
  now rewrite E.
Qed.

End ParsedFacts.

(** X7. In every list that [parse_html] returns, the five count fields of
    every record (points, goals, assists, games, penalty) are
    non-negative. *)
Theorem parsed_counts_nonnegative {U : UnicodeData} {I : Interpreter} (soup : node)
    (players : list PlayerStats) (p : PlayerStats) :
  parse_soup soup = Ok players -> In p players ->
  (0 <= points p /\ 0 <= goals p /\ 0 <= assists p /\ 0 <= games p
   /\ 0 <= penalty p)%Z.
Proof.
  unfold parse_soup.
  destruct (find is_stats_table (find_all [lit "table"] soup)); [|discriminate].
  intros [= <-] Hp. apply parse_rows_sound in Hp as (tr & _ & _ & ->).
  cbn [spec_record points goals assists games penalty].
  repeat split; apply count_default_nonneg.
Qed.

Lemma parsed_counts_nonnegative_witness :
  (0 <= points ivanov /\ 0 <= goals ivanov /\ 0 <= assists ivanov
   /\ 0 <= games ivanov /\ 0 <= penalty ivanov)%Z.
Proof.
  apply (parsed_counts_nonnegative (U := ucd_sample)
           (page_of [row_petrov; row_ivanov; row_sidorov])
           [petrov; ivanov; sidorov] ivanov);
    [reflexivity | right; left; reflexivity].
Defined.

(** X8. When [parse_html] returns a list, it has selected a table; the
    list has at most one record for each row after the first, and every
    record is made from the cells of one such row that has at least twelve
    cells; its four text fields are cells 1 to 4 of that row and carry no
    surrounding whitespace. *)
Theorem parsed_records_come_from_rows {U : UnicodeData} {I : Interpreter} (soup : node)
    (players : list PlayerStats) :
  parse_soup soup = Ok players ->
  exists table,
    find is_stats_table (find_all [lit "table"] soup) = Some table
    /\ List.length players <= List.length (find_all [lit "tr"] table) - 1
    /\ forall p, In p players ->
         exists tr,
           In tr (tl (find_all [lit "tr"] table))
           /\ 12 <= List.length (cell_texts tr)
           /\ p = spec_record (cell_texts tr)
           /\ strip (name p) = name p /\ strip (team p) = team p
           /\ strip (team_abbr p) = team_abbr p
           /\ strip (position p) = position p.
Proof.
  unfold parse_soup.
  destruct (find is_stats_table (find_all [lit "table"] soup)) as [table|];
    [|discriminate].
  intros [= <-]. exists table. split; [reflexivity|]. split.
  - pose proof (parse_rows_length (tl (find_all [lit "tr"] table))) as H.
    destruct (find_all [lit "tr"] table); cbn [tl List.length] in *; lia.
  - intros p Hp. apply parse_rows_sound in Hp as (tr & Htr & H12 & ->).
    exists tr. unfold has_12_cells in H12. apply Nat.leb_le in H12.
    split; [exact Htr | split; [exact H12 | split; [reflexivity|]]].
    cbn [spec_record name team team_abbr position].
    repeat split; apply cell_stripped; lia.
Qed.

Lemma parsed_records_come_from_rows_witness :
  exists table,
    find (is_stats_table (U := ucd_sample))
      (find_all [lit "table"] (page_of [row_petrov; row_short])) = Some table
    /\ List.length [petrov] <= List.length (find_all [lit "tr"] table) - 1
    /\ forall p, In p [petrov] ->
         exists tr,
           In tr (tl (find_all [lit "tr"] table))
           /\ 12 <= List.length (cell_texts (U := ucd_sample) tr)
           /\ p = spec_record (U := ucd_sample) (cell_texts tr)
           /\ strip (U := ucd_sample) (name p) = name p
           /\ strip (U := ucd_sample) (team p) = team p
           /\ strip (U := ucd_sample) (team_abbr p) = team_abbr p
           /\ strip (U := ucd_sample) (position p) = position p.
Proof.
  apply (parsed_records_come_from_rows (U := ucd_sample)
           (page_of [row_petrov; row_short]) [petrov]).
  reflexivity.
Defined.

(** X9. A player of a list that [parse_html] returned is found by the
    lookup under the player's own name, provided no earlier player of the
    list has the same name up to letter case. *)
Theorem parsed_player_found_by_name {U : UnicodeData} {I : Interpreter} (soup : node)
    (pre post : list PlayerStats) (p : PlayerStats) :
  parse_soup soup = Ok (pre ++ p :: post) ->
  (forall q, In q pre -> same_name_ci (name q) (name p) = false) ->
  find_player (name p) (pre ++ p :: post) = Some p.
Proof.
  intros Hs Hpre.
  assert (Hn : strip (name p) = name p).
  { apply (parsed_names_stripped soup (pre ++ p :: post) p Hs).
    apply in_elt. }
  rewrite find_player_same_name, Hn. apply find_first.
  - exact Hpre.
  - unfold same_name_ci. apply str_eqb_refl.
Qed.

Lemma parsed_player_found_by_name_witness :
  find_player (U := ucd_sample) (name ivanov) [petrov; ivanov; sidorov]
  = Some ivanov.
Proof.
  apply (parsed_player_found_by_name (U := ucd_sample)
           (page_of [row_petrov; row_ivanov; row_sidorov])
           [petrov] [sidorov] ivanov).
  - reflexivity.
  - intros q [<- | []]. reflexivity.
Defined.

(** ** Search within a limit *)

Lemma firstn_member {A} (n : nat) (l : list A) (x : A) :
  In x (firstn n l) -> In x l.
Proof.
  revert l. induction n as [|n IH]; intros [|a l]; cbn [firstn In]; try tauto.
  intros [<- | H]; [now left | right; exact (IH l H)].
Qed.

(** X10. With a limit of at least one and a query that does not trim to
    the empty string, [search_players] returns an initial part of the
    players whose lower-cased name starts with the trimmed, lower-cased
    query, in list order: never more than the limit, and all of them when
    they are fewer than the limit. *)
Theorem search_players_first_matches {U : UnicodeData} (query : pystr)
    (players : list PlayerStats) (limit : Z) :
  (1 <= limit)%Z -> strip query <> [] ->
  let q := lower (strip query) in
  let found := search_players query players limit in
  (Z.of_nat (List.length found) <= limit)%Z
  /\ (forall p, In p found -> In p players /\ name_starts_with q p = true)
  /\ exists rest,
       filter (name_starts_with q) players = found ++ rest
       /\ ((Z.of_nat (List.length found) < limit)%Z -> rest = []).
Proof.
  intros Hl Hq q found.
  assert (E : found = firstn (Z.to_nat limit) (filter (name_starts_with q) players)).
  { unfold found. rewrite search_players_positive_limit by exact Hl.
    fold q. destruct (strip query); [congruence | reflexivity]. }
  set (all := filter (name_starts_with q) players) in *.
  split; [|split].
  - rewrite E. pose proof (firstn_le_length (Z.to_nat limit) all).
    pose proof (length_firstn (Z.to_nat limit) all). lia.
  - intros p Hp. rewrite E in Hp. apply firstn_member in Hp.
    unfold all in Hp. apply filter_In in Hp. exact Hp.
  - exists (skipn (Z.to_nat limit) all). split.
    + rewrite E. symmetry. apply firstn_skipn.
    + intros Hlt. apply skipn_all2.
      rewrite E, length_firstn in Hlt. lia.
Qed.

Lemma search_players_first_matches_witness :
  search_players (U := ucd_sample) (lit " S") [petrov; sidorov; ivanov; sidorov] 1
  = [sidorov]
  /\ exists rest,
       filter (name_starts_with (U := ucd_sample)
                 (lower (strip (U := ucd_sample) (lit " S"))))
         [petrov; sidorov; ivanov; sidorov]
       = search_players (U := ucd_sample) (lit " S")
           [petrov; sidorov; ivanov; sidorov] 1 ++ rest.
Proof.
  split; [reflexivity|].
  destruct (search_players_first_matches (U := ucd_sample) (lit " S")
              [petrov; sidorov; ivanov; sidorov] 1)
    as (_ & _ & rest & Hrest & _); [lia | discriminate |].
  exists rest. exact Hrest.
Defined.

(** X11. A query made of whitespace only, the empty query included,
    finds nothing, for every player list and every limit. *)
Theorem search_players_blank_query {U : UnicodeData} (query : pystr)
    (players : list PlayerStats) (limit : Z) :
  forallb isspace_cp query = true ->
  search_players query players limit = [].
Proof.
  intros H. unfold search_players.
  now rewrite (strip_all_space query H), lower_nil.
Qed.

Lemma search_players_blank_query_witness :
  search_players (U := ucd_sample) [32; 9; 160]%N [petrov; ivanov] 0 = [].
Proof.
  apply (search_players_blank_query (U := ucd_sample)). reflexivity.
Defined.

(** ** The handlers *)

Section HandlerFacts.
Context {U : UnicodeData} {I : Interpreter} {W : World}.

Lemma find_player_some (name_ : pystr) (players : list PlayerStats)
    (p : PlayerStats) :
  find_player name_ players = Some p ->
  In p players /\ same_name_ci (name p) (strip name_) = true.
Proof.
  rewrite find_player_same_name. intros H. now apply find_some in H.
Qed.

(** A call of [get_players] issues one request at most. *)
Lemma get_players_requests (c : call) (st : process) :
  requests (snd (get_players c st)) = requests st
  \/ exists url, _build_url (call_season c) (call_playoff c) = Ok url /\
                 requests (snd (get_players c st))
                 = url :: requests st.
Proof.
  destruct (cache_get c (cache st)) as [e|] eqn:E.
  - left. now rewrite (get_players_hit _ _ _ E).
  - destruct (_build_url (call_season c) (call_playoff c)) as [url|x] eqn:Hu.
    + right. exists url. split; [reflexivity|].
      now apply get_players_miss_requests.
    + left. rewrite (get_players_miss _ _ E).
      pose proof (proj2 (uncached_effect c st)) as Hr.
      rewrite Hu in Hr. now rewrite Hr.
Qed.

End HandlerFacts.

(** X12. [api_search] answers an empty query with status 200 and an
    empty list, without touching the cache or the network.  Otherwise it
    calls [get_playersc] once, with the season of the
    request, else the one of the environment, else the one of the current
    date; it answers 500 with an error message exactly when that call
    raised, and raises nothing itself; when the call returned, it answers
    200 with at most ten players, each of them a player of the list
    returned whose lower-cased name starts with the trimmed, lower-cased
    query. *)
Theorem api_search_response {U : UnicodeData} {I : Interpreter} {W : World}
    (q season_arg playoff_arg : option pystr) (env : environment) (st : process) :
  let query := get_or q [] in
  let given := get_or_else season_arg (get_or (DEFAULT_SEASON env) []) in
  let season :=
    if is_empty given then default_season (today_year env) (today_month env)
    else given in
  let playoff := playoff_flag playoff_arg in
  let answer := fst (api_search q season_arg playoff_arg env st) in
  let st' := snd (api_search q season_arg playoff_arg env st) in
  (query = [] /\ st' = st /\ answer = (PlayersBody [], 200%Z))
  \/ (query <> []
      /\ st' = snd (get_players (Args2 season playoff) st)
      /\ match fst (get_players (Args2 season playoff) st) with
         | Raise _ =>
             answer = (ErrorBody (lit "Failed to load player list"), 500%Z)
         | Ok players =>
             exists dicts,
               answer = (PlayersBody dicts, 200%Z)
               /\ dicts = map to_dict (search_players query players 10)
               /\ List.length dicts <= 10
               /\ forall d, In d dicts ->
                    exists p, In p players /\ d = to_dict p /\
                              name_starts_with (lower (strip query)) p = true
         end).
Proof.
  cbv zeta. unfold api_search.
  destruct (get_or q []) as [|c r] eqn:Eq; cbn [is_empty].
  { left. auto. }
  right. split; [discriminate|].
  match goal with
  | |- context [get_players ?k st] =>
      destruct (get_players k st) as [[players|e] st'] eqn:Eg
  end; cbn [fst snd]; [|auto].
  split; [reflexivity|].
  eexists. split; [reflexivity|]. split; [reflexivity|]. split.
  - rewrite length_map, search_players_positive_limit by lia.
    destruct (strip (c :: r)); [cbn; lia|].
    exact (firstn_le_length 10 _).
  - intros d Hd. apply in_map_iff in Hd as (p & <- & Hp).
    exists p.
    rewrite search_players_positive_limit in Hp by lia.
    destruct (strip (c :: r)) eqn:Es; [contradiction|].
    apply firstn_member, filter_In in Hp. tauto.
Qed.

(** X13. No operation retries: a call of [get_players] or
    [get_player_stats] and a request to either handler adds at most one
    URL to the log of requests, and never removes one. *)
Theorem operation_issues_at_most_one_request {U : UnicodeData} {I : Interpreter} {W : World}
    (op : operation) (st : process) :
  requests (step op st) = requests st
  \/ exists url, requests (step op st) = url :: requests st.
Proof.
  destruct (step_is_call op st) as [-> | (c & ->)]; [now left|].
  destruct (get_players_requests c st) as [H | (url & _ & H)];
    [now left | right; eauto].
Qed.

(** X14. [api_stats] answers 400, without touching the cache or the
    network, exactly when the player or the season parameter is missing or
    blank; otherwise it answers 500 when the lookup raised, 404 when the
    season's list has no player of that name, and 200 with the record of a
    player of the list whose name equals the trimmed parameter up to letter
    case. *)
Theorem api_stats_response {U : UnicodeData} {I : Interpreter} {W : World}
    (player_arg season_arg playoff_arg : option pystr) (st : process) :
  let name_ := strip (get_or player_arg []) in
  let season := strip (get_or season_arg []) in
  let playoff := playoff_flag playoff_arg in
  let answer := fst (api_stats player_arg season_arg playoff_arg st) in
  let st' := snd (api_stats player_arg season_arg playoff_arg st) in
  ((name_ = [] \/ season = []) /\ st' = st
   /\ answer = (ErrorBody (lit "Missing player or season parameter"), 400%Z))
  \/ (name_ <> [] /\ season <> []
      /\ st' = snd (get_players (Args2 season playoff) st)
      /\ match fst (get_players (Args2 season playoff) st) with
         | Raise _ =>
             answer = (ErrorBody (lit "Failed to fetch player stats"), 500%Z)
         | Ok players =>
             (find_player name_ players = None
              /\ answer = (ErrorBody (lit "Player not found"), 404%Z))
             \/ exists p,
                  In p players
                  /\ same_name_ci (name p) name_ = true
                  /\ answer = (StatsBody (to_dict p), 200%Z)
         end).
Proof.
  cbv zeta. unfold api_stats.
  destruct (strip (get_or player_arg [])) as [|c r] eqn:En; cbn [is_empty orb].
  { left. auto. }
  destruct (strip (get_or season_arg [])) as [|c' r'] eqn:Es; cbn [is_empty].
  { left. auto. }
  right. split; [discriminate|]. split; [discriminate|].
  unfold get_player_stats.
  destruct (get_players (Args2 (c' :: r') (playoff_flag playoff_arg)) st)
    as [[players|e] st1]; cbn [fst snd]; [|auto].
  split; [now destruct (find_player (c :: r) players)|].
  destruct (find_player (c :: r) players) as [p|] eqn:Ef; cbn [fst].
  - right. exists p. apply find_player_some in Ef as [Hin Hci].
    rewrite <- En in Hci. unfold strip in Hci. rewrite strip_with_idem in Hci.
    fold (strip (get_or player_arg [])) in Hci. rewrite En in Hci. auto.
  - left. auto.
Qed.

(** ** The components of a season identifier *)

(** X15. Of an identifier with a separator only the second component is
    read: the first is never examined and whatever follows a second
    separator is ignored, so the identifier resolves exactly when its second
    component is an integer literal, and raises the invalid-season
    [ValueError] otherwise. *)
Theorem season_second_component_only {U : UnicodeData} {I : Interpreter}
    (first second rest : pystr) :
  contains_char slash first = false -> contains_char slash second = false ->
  let outcome :=
    match int second with
    | Some y => Ok y
    | None => Raise (ValueError InvalidSeasonFormat)
    end in
  _season_to_year (first ++ slash :: second) = outcome
  /\ _season_to_year (first ++ slash :: second ++ slash :: rest) = outcome.
Proof.
  intros Hf Hs. cbv zeta. unfold _season_to_year.
  rewrite !contains_char_app_sep.
  rewrite !(split_app_sep slash first _ Hf).
  rewrite (split_app_sep slash second rest Hs).
  rewrite (split_no_sep slash second Hs).
  unfold item, rbind, py_int. cbn [nth_error].
  split; now destruct (int second).
Qed.

Lemma season_second_component_only_witness :
  _season_to_year (U := ucd_sample) (lit "abc" ++ slash :: lit "2025") = Ok 2025%Z
  /\ _season_to_year (U := ucd_sample)
       (lit "abc" ++ slash :: lit "2025" ++ slash :: lit "junk") = Ok 2025%Z.
Proof.
  apply (season_second_component_only (U := ucd_sample)
           (lit "abc") (lit "2025") (lit "junk")); reflexivity.
Defined.
